(** * grpc-header-mapper: a shallow embedding of package [headermapper]

    The Go package maps HTTP headers to gRPC metadata and back.  This file
    embeds its mapping engine ([MetadataAnnotator], [ResponseModifier], the
    interceptors, the validators, the fluent [Builder] and the transform
    combinators) as Rocq functions and states the properties of the
    specification about them.

    Conventions.
    - Go strings are byte strings ([string] of [ascii]); the functions of Go's
      [strings] package are modelled on ASCII (bytes above 127 are left
      alone, only ASCII white space is trimmed).
    - Go maps ([http.Header], [metadata.MD], [map[string]bool]) are [gmap]s.
    - A nil pointer dereference is the outcome [Panicked].
    - Calls on the injected [Logger] are collected in a trace, in order.
    - A transform attached to a rule is a function that returns: a panic
      inside a transform is not modelled, and the non-ASCII behaviour of
      [strings.ToLower], [strings.ToUpper] and [strings.TrimSpace] is not
      either, so statements about values that go through them are made for
      ASCII values. *)

From Stdlib Require Import ZArith Ascii String.
From stdpp Require Import gmap strings list fin_maps.

Open Scope string_scope.
Open Scope list_scope.

(** ** Go's [strings] package (ASCII model) *)

Module Strings.

Definition between (lo hi : N) (c : ascii) : bool :=
  ((lo <=? N_of_ascii c) && (N_of_ascii c <=? hi))%N.

Definition is_upper : ascii → bool := between 65 90.
Definition is_lower : ascii → bool := between 97 122.
Definition is_digit : ascii → bool := between 48 57.

Definition lower_byte (c : ascii) : ascii :=
  if is_upper c then ascii_of_N (N_of_ascii c + 32) else c.

Definition upper_byte (c : ascii) : ascii :=
  if is_lower c then ascii_of_N (N_of_ascii c - 32) else c.

Fixpoint map_bytes (f : ascii → ascii) (s : string) : string :=
  match s with
  | EmptyString => EmptyString
  | String c r => String (f c) (map_bytes f r)
  end.

Fixpoint all_bytes (p : ascii → bool) (s : string) : bool :=
  match s with
  | EmptyString => true
  | String c r => p c && all_bytes p r
  end.

Definition ToLower : string → string := map_bytes lower_byte.
Definition ToUpper : string → string := map_bytes upper_byte.

(** '\t', '\n', '\v', '\f', '\r' and ' '. *)
Definition is_space (c : ascii) : bool :=
  between 9 13 c || (N_of_ascii c =? 32)%N.

Fixpoint trim_left (s : string) : string :=
  match s with
  | EmptyString => EmptyString
  | String c r => if is_space c then trim_left r else s
  end.

Fixpoint trim_right (s : string) : string :=
  match s with
  | EmptyString => EmptyString
  | String c r =>
      match trim_right r with
      | EmptyString => if is_space c then EmptyString else String c EmptyString
      | r' => String c r'
      end
  end.

Definition TrimSpace (s : string) : string := trim_right (trim_left s).

(** [strip p s] is [Some r] when [s = p ++ r]. *)
Fixpoint strip (p s : string) : option string :=
  match p, s with
  | EmptyString, _ => Some s
  | String a p', String b s' => if Ascii.eqb a b then strip p' s' else None
  | String _ _, EmptyString => None
  end.

Definition TrimPrefix (s p : string) : string :=
  match strip p s with Some r => r | None => s end.

(** [strings.ReplaceAll] for a one-byte pattern and replacement. *)
Definition ReplaceByte (old new : ascii) : string → string :=
  map_bytes (λ c, if Ascii.eqb c old then new else c).

End Strings.

(** ** The transform combinators *)

(** [type TransformFunc func(value string) string].  A Go function value may
    be nil: a field or argument that holds one has type
    [option TransformFunc]. *)
Definition TransformFunc : Type := string → string.

Definition ToLower : TransformFunc := Strings.ToLower.
Definition ToUpper : TransformFunc := Strings.ToUpper.
Definition TrimSpace : TransformFunc := Strings.TrimSpace.

Definition AddPrefix (prefix : string) : TransformFunc :=
  λ value, (prefix ++ value)%string.

Definition RemovePrefix (prefix : string) : TransformFunc :=
  λ value, Strings.TrimPrefix value prefix.

(** One turn of the loop of [ChainTransforms]:
    [if transform != nil { result = transform(result) }]. *)
Definition chain_step (result : string) (transform : option TransformFunc)
  : string :=
  match transform with
  | Some f => f result
  | None => result
  end.

(** [ChainTransforms]: [result := value], then the loop over [transforms]. *)
Definition ChainTransforms (transforms : list (option TransformFunc))
  : TransformFunc :=
  λ value, fold_left chain_step transforms value.

(** ** [net/textproto] and [net/http]: canonical header keys *)

Module Textproto.

(** [validHeaderFieldByte]: the token characters of RFC 7230. *)
Definition validHeaderFieldByte (c : ascii) : bool :=
  Strings.is_upper c || Strings.is_lower c || Strings.is_digit c
  || existsb (Ascii.eqb c) (String.list_ascii_of_string "!#$%&'*+-.^_`|~").

(** The second loop of [canonicalMIMEHeaderKey]: upper case at the start
    and after each dash, lower case elsewhere. *)
Fixpoint canon (upper : bool) (s : string) : string :=
  match s with
  | EmptyString => EmptyString
  | String c r =>
      let c' := if upper then Strings.upper_byte c else Strings.lower_byte c in
      String c' (canon (Ascii.eqb c' "-"%char) r)
  end.

(** [CanonicalMIMEHeaderKey]: a key with a byte that is no token character
    is returned unchanged. *)
Definition CanonicalMIMEHeaderKey (s : string) : string :=
  if Strings.all_bytes validHeaderFieldByte s then canon true s else s.

End Textproto.

(** [http.Header] is [map[string][]string]. *)
Abbreviation Header := (gmap string (list string)).

(** [Header.Get]: the first value under the canonical key, or [""]. *)
Definition Header_Get (h : Header) (key : string) : string :=
  match h !! Textproto.CanonicalMIMEHeaderKey key with
  | Some (v :: _) => v
  | _ => ""
  end.

(** [Header.Set]: replaces the values under the canonical key. *)
Definition Header_Set (h : Header) (key value : string) : Header :=
  <[Textproto.CanonicalMIMEHeaderKey key := [value]]> h.

(** The part of a [*http.Request] that the mapper reads. *)
Record Request := {
  URL_Path : string;
  Req_Header : Header
}.

(** ** [google.golang.org/grpc/metadata] *)

(** [metadata.MD] is [map[string][]string]. *)
Abbreviation MD := (gmap string (list string)).

(** [MD.Get]: the values under the lower-cased key (nil when absent). *)
Definition MD_Get (md : MD) (k : string) : list string :=
  default [] (md !! Strings.ToLower k).

(** [MD.Set]: does nothing for an empty list of values. *)
Definition MD_Set (md : MD) (k : string) (vals : list string) : MD :=
  match vals with
  | [] => md
  | _ => <[Strings.ToLower k := vals]> md
  end.

(** [metadata.New]: keys are lower-cased, values of colliding keys appended.
    Go ranges over the argument in no specified order; the model takes the
    order of [map_fold]. *)
Definition MD_New (m : gmap string string) : MD :=
  map_fold (λ k val (md : MD),
              let key := Strings.ToLower k in
              <[key := (default [] (md !! key) ++ [val])%list]> md) ∅ m.

(** [runtime.ServerMetadata] of grpc-gateway. *)
Record ServerMetadata := {
  HeaderMD : MD;
  TrailerMD : MD
}.

(** What the mapper reads from and binds in a [context.Context]: the
    incoming metadata and the gateway's server metadata. *)
Record Context := {
  ctx_incoming : option MD;
  ctx_server : option ServerMetadata
}.

(** [metadata.FromIncomingContext]: a copy with lower-cased keys. *)
Definition FromIncomingContext (ctx : Context) : option MD :=
  match ctx_incoming ctx with
  | None => None
  | Some raw =>
      Some (map_fold (λ k v (out : MD), <[Strings.ToLower k := v]> out) ∅ raw)
  end.

Definition NewIncomingContext (ctx : Context) (md : MD) : Context :=
  {| ctx_incoming := Some md; ctx_server := ctx_server ctx |}.

Definition ServerMetadataFromContext (ctx : Context) : option ServerMetadata :=
  ctx_server ctx.

(** ** The rule model *)

(** [type MappingDirection int]; the constants come from [iota]. *)
Definition MappingDirection : Type := Z.
Definition Incoming : MappingDirection := 0%Z.
Definition Outgoing : MappingDirection := 1%Z.
Definition Bidirectional : MappingDirection := 2%Z.

Record HeaderMapping := {
  HTTPHeader : string;
  GRPCMetadata : string;
  Direction : MappingDirection;
  Transform : option TransformFunc;
  Required : bool;
  DefaultValue : string
}.

Record Config := {
  Mappings : list HeaderMapping;
  SkipPaths : list string;
  CaseSensitive : bool;
  OverwriteExisting : bool;
  Debug : bool
}.

(** [&Config{}]: every field at its zero value. *)
Definition zero_Config : Config :=
  {| Mappings := []; SkipPaths := []; CaseSensitive := false;
     OverwriteExisting := false; Debug := false |}.

(** Field assignments. *)
Definition set_Transform (t : option TransformFunc) (m : HeaderMapping)
  : HeaderMapping :=
  {| HTTPHeader := HTTPHeader m; GRPCMetadata := GRPCMetadata m;
     Direction := Direction m; Transform := t; Required := Required m;
     DefaultValue := DefaultValue m |}.

Definition set_Required (r : bool) (m : HeaderMapping) : HeaderMapping :=
  {| HTTPHeader := HTTPHeader m; GRPCMetadata := GRPCMetadata m;
     Direction := Direction m; Transform := Transform m; Required := r;
     DefaultValue := DefaultValue m |}.

Definition set_DefaultValue (d : string) (m : HeaderMapping) : HeaderMapping :=
  {| HTTPHeader := HTTPHeader m; GRPCMetadata := GRPCMetadata m;
     Direction := Direction m; Transform := Transform m;
     Required := Required m; DefaultValue := d |}.

Definition set_Mappings (ms : list HeaderMapping) (c : Config) : Config :=
  {| Mappings := ms; SkipPaths := SkipPaths c;
     CaseSensitive := CaseSensitive c;
     OverwriteExisting := OverwriteExisting c; Debug := Debug c |}.

Definition set_SkipPaths (ps : list string) (c : Config) : Config :=
  {| Mappings := Mappings c; SkipPaths := ps;
     CaseSensitive := CaseSensitive c;
     OverwriteExisting := OverwriteExisting c; Debug := Debug c |}.

Definition set_CaseSensitive (b : bool) (c : Config) : Config :=
  {| Mappings := Mappings c; SkipPaths := SkipPaths c; CaseSensitive := b;
     OverwriteExisting := OverwriteExisting c; Debug := Debug c |}.

Definition set_OverwriteExisting (b : bool) (c : Config) : Config :=
  {| Mappings := Mappings c; SkipPaths := SkipPaths c;
     CaseSensitive := CaseSensitive c; OverwriteExisting := b;
     Debug := Debug c |}.

Definition set_Debug (b : bool) (c : Config) : Config :=
  {| Mappings := Mappings c; SkipPaths := SkipPaths c;
     CaseSensitive := CaseSensitive c;
     OverwriteExisting := OverwriteExisting c; Debug := b |}.

(** ** Effects: logger calls and panics *)

Inductive LogArg :=
| LogStr (s : string)
| LogMD (md : MD).

(** One call on the [Logger] interface. *)
Inductive LogCall :=
| LogDebug (args : list LogArg)
| LogInfo (args : list LogArg)
| LogWarn (args : list LogArg)
| LogError (args : list LogArg).

Abbreviation Trace := (list LogCall).

Inductive outcome (A : Type) :=
| Returned (a : A)
| Panicked.
Arguments Returned {A} a.
Arguments Panicked {A}.

(** ** The mapper *)

(** [config] is a pointer and may be nil; the [logger] field is represented
    by the trace of the calls made on it. *)
Record HeaderMapper := {
  config : option Config;
  skipPaths : gmap string bool
}.

(** Reading [hm.skipPaths[path]]: false for a missing key. *)
Definition skipped (hm : HeaderMapper) (path : string) : bool :=
  default false (skipPaths hm !! path).

Definition NewHeaderMapper (config : option Config) : HeaderMapper :=
  let config := match config with Some c => c | None => zero_Config end in
  let skipPaths :=
    fold_left (λ (acc : gmap string bool) path, <[path := true]> acc)
              (SkipPaths config) ∅ in
  {| config := Some config; skipPaths := skipPaths |}.

(** The body of [if mapping.Transform != nil { ... }]. *)
Definition apply_Transform (mapping : HeaderMapping) (headerValue : string)
  : string :=
  match Transform mapping with
  | Some f => f headerValue
  | None => headerValue
  end.

(** [mapIncomingHeader]; [cfg] is [hm.config]. *)
Definition mapIncomingHeader (cfg : Config) (req : Request) (md : MD)
    (mapping : HeaderMapping) : MD * Trace :=
  let headerValue := Header_Get (Req_Header req) (HTTPHeader mapping) in
  let headerValue :=
    if (headerValue =? "") && negb (DefaultValue mapping =? "")
    then DefaultValue mapping else headerValue in
  if (headerValue =? "") && Required mapping then
    (md, [LogWarn [LogStr "Required header missing:";
                   LogStr (HTTPHeader mapping)]])
  else if headerValue =? "" then (md, [])
  else
    let headerValue := apply_Transform mapping headerValue in
    if negb (OverwriteExisting cfg)
       && (0 <? length (MD_Get md (GRPCMetadata mapping)))%nat
    then (md, [])
    else (MD_Set md (GRPCMetadata mapping) [headerValue], []).

(** The loop of [MetadataAnnotator] over [hm.config.Mappings]. *)
Fixpoint incoming_loop (cfg : Config) (req : Request)
    (mappings : list HeaderMapping) (md : MD) : MD * Trace :=
  match mappings with
  | [] => (md, [])
  | mapping :: rest =>
      if (Direction mapping =? Outgoing)%Z then incoming_loop cfg req rest md
      else
        let '(md1, t1) := mapIncomingHeader cfg req md mapping in
        let '(md2, t2) := incoming_loop cfg req rest md1 in
        (md2, t1 ++ t2)%list
  end.

(** The function returned by [MetadataAnnotator]. *)
Definition MetadataAnnotator (hm : HeaderMapper) (req : Request)
  : outcome (MD * Trace) :=
  if skipped hm (URL_Path req) then Returned (MD_New ∅, [])
  else
    match config hm with
    | None => Panicked
    | Some cfg =>
        let '(md, t) := incoming_loop cfg req (Mappings cfg) (MD_New ∅) in
        Returned
          (md,
           (t ++ if Debug cfg
                 then [LogDebug [LogStr "Mapped incoming headers:"; LogMD md]]
                 else [])%list)
    end.

(** [mapOutgoingHeader]; [w] is [w.Header()].  The first [if] either
    returns (right) or leaves a non-empty [values] (left), so [values[0]]
    is in range. *)
Definition mapOutgoingHeader (cfg : Config) (md : MD) (w : Header)
    (mapping : HeaderMapping) : Header * Trace :=
  let values := MD_Get md (GRPCMetadata mapping) in
  let values : list string + Trace :=
    if (length values =? 0)%nat then
      if negb (DefaultValue mapping =? "") then inl [DefaultValue mapping]
      else if Required mapping then
        inr [LogWarn [LogStr "Required metadata missing:";
                      LogStr (GRPCMetadata mapping)]]
      else inr []
    else inl values in
  match values with
  | inr t => (w, t)
  | inl values =>
      let headerValue := hd "" values in
      let headerValue := apply_Transform mapping headerValue in
      if negb (OverwriteExisting cfg)
         && negb (Header_Get w (HTTPHeader mapping) =? "")
      then (w, [])
      else (Header_Set w (HTTPHeader mapping) headerValue, [])
  end.

(** The loop of [ResponseModifier] over [hm.config.Mappings]. *)
Fixpoint outgoing_loop (cfg : Config) (md : MD)
    (mappings : list HeaderMapping) (w : Header) : Header * Trace :=
  match mappings with
  | [] => (w, [])
  | mapping :: rest =>
      if (Direction mapping =? Incoming)%Z then outgoing_loop cfg md rest w
      else
        let '(w1, t1) := mapOutgoingHeader cfg md w mapping in
        let '(w2, t2) := outgoing_loop cfg md rest w1 in
        (w2, t1 ++ t2)%list
  end.

(** The function returned by [ResponseModifier]; the error it returns is
    always nil, so the result is the header sink and the logger trace. *)
Definition ResponseModifier (hm : HeaderMapper) (ctx : Context) (w : Header)
  : outcome (Header * Trace) :=
  match ServerMetadataFromContext ctx with
  | None => Returned (w, [])
  | Some md =>
      match config hm with
      | None => Panicked
      | Some cfg =>
          let '(w', t) := outgoing_loop cfg (HeaderMD md) (Mappings cfg) w in
          Returned
            (w',
             (t ++ if Debug cfg
                   then [LogDebug [LogStr "Mapped outgoing headers to response"]]
                   else [])%list)
      end
  end.

(** ** The gRPC interceptors *)

(** The loop of [processIncomingMetadata] over [hm.config.Mappings]: its
    body holds the [continue] for outgoing rules and two comments, so
    [newMD] leaves every turn as it entered. *)
Fixpoint process_loop (mappings : list HeaderMapping) (newMD : MD) : MD :=
  match mappings with
  | [] => newMD
  | mapping :: rest =>
      if (Direction mapping =? Outgoing)%Z then process_loop rest newMD
      else process_loop rest newMD
  end.

Definition processIncomingMetadata (hm : HeaderMapper) (ctx : Context)
  : outcome Context :=
  match FromIncomingContext ctx with
  | None => Returned ctx
  | Some md =>
      let newMD := map_fold (λ k v (newMD : MD), MD_Set newMD k v)
                            (MD_New ∅) md in
      match config hm with
      | None => Panicked
      | Some cfg =>
          Returned (NewIncomingContext ctx (process_loop (Mappings cfg) newMD))
      end
  end.

Record UnaryServerInfo := { FullMethod : string }.

(** A [grpc.UnaryHandler] as a function of the context and the request. *)
Definition UnaryServerInterceptor {Req Resp : Type} (hm : HeaderMapper)
    (ctx : Context) (req : Req) (info : UnaryServerInfo)
    (handler : Context → Req → Resp) : outcome Resp :=
  if skipped hm (FullMethod info) then Returned (handler ctx req)
  else
    match processIncomingMetadata hm ctx with
    | Panicked => Panicked
    | Returned newCtx => Returned (handler newCtx req)
    end.

(** A [grpc.ServerStream]: the context it reports and the stream below it.
    [wrappedServerStream] embeds the stream and overrides [Context()]. *)
Record ServerStream (Base : Type) := {
  stream_Context : Context;
  stream_base : Base
}.
Arguments stream_Context {Base} _.
Arguments stream_base {Base} _.

Definition wrappedServerStream {Base : Type} (ss : ServerStream Base)
    (ctx : Context) : ServerStream Base :=
  {| stream_Context := ctx; stream_base := stream_base ss |}.

Definition StreamServerInterceptor {Srv Base Err : Type} (hm : HeaderMapper)
    (srv : Srv) (ss : ServerStream Base) (info : UnaryServerInfo)
    (handler : Srv → ServerStream Base → Err) : outcome Err :=
  if skipped hm (FullMethod info) then Returned (handler srv ss)
  else
    match processIncomingMetadata hm (stream_Context ss) with
    | Panicked => Panicked
    | Returned ctx => Returned (handler srv (wrappedServerStream ss ctx))
    end.

(** ** [HeaderMatcher] *)

(** The lookup table built by [HeaderMatcher]. *)
Definition headerMap (cfg : Config) : gmap string string :=
  fold_left
    (λ (acc : gmap string string) mapping,
       if negb (Direction mapping =? Outgoing)%Z then
         let key := HTTPHeader mapping in
         let key := if negb (CaseSensitive cfg) then Strings.ToLower key
                    else key in
         <[key := GRPCMetadata mapping]> acc
       else acc)
    (Mappings cfg) ∅.

(** The function returned by [HeaderMatcher]. [DefaultHeaderMatcher] is
    grpc-gateway's [runtime.DefaultHeaderMatcher]. *)
Definition HeaderMatcher (DefaultHeaderMatcher : string → string * bool)
    (hm : HeaderMapper) (key : string) : outcome (string * bool) :=
  match config hm with
  | None => Panicked
  | Some cfg =>
      let searchKey := if negb (CaseSensitive cfg) then Strings.ToLower key
                       else key in
      match headerMap cfg !! searchKey with
      | Some grpcKey => Returned (grpcKey, true)
      | None =>
          let '(defaultKey, defaultExists) := DefaultHeaderMatcher key in
          let defaultKey :=
            if negb defaultExists || (defaultKey =? "") then
              ("grpc-metadata-"
               ++ Strings.ToLower (Strings.ReplaceByte "_" "-" key))%string
            else defaultKey in
          Returned (defaultKey, true)
      end
  end.

(** ** Validation *)

(** The errors built with [fmt.Errorf]. *)
Inductive error :=
| ErrConfigurationNil
| ErrHTTPHeaderEmpty (i : nat)
| ErrGRPCMetadataEmpty (i : nat)
| ErrDuplicateMapping (key : string) (d1 d2 : MappingDirection).

(** The loop of [Validate], from index [i]; [None] is the nil error. *)
Fixpoint validate_loop (i : nat) (mappings : list HeaderMapping)
  : option error :=
  match mappings with
  | [] => None
  | mapping :: rest =>
      if HTTPHeader mapping =? "" then Some (ErrHTTPHeaderEmpty i)
      else if GRPCMetadata mapping =? "" then Some (ErrGRPCMetadataEmpty i)
      else validate_loop (S i) rest
  end.

Definition Validate (hm : HeaderMapper) : option error :=
  match config hm with
  | None => Some ErrConfigurationNil
  | Some cfg => validate_loop 0 (Mappings cfg)
  end.

(** [fmt.Sprintf("%s->%s", mapping.HTTPHeader, mapping.GRPCMetadata)]. *)
Definition mapping_key (mapping : HeaderMapping) : string :=
  (HTTPHeader mapping ++ "->" ++ GRPCMetadata mapping)%string.

(** The loop of [ValidateConfig], from index [i] with the map [seen]. *)
Fixpoint validate_config_loop (i : nat) (seen : gmap string HeaderMapping)
    (mappings : list HeaderMapping) : option error :=
  match mappings with
  | [] => None
  | mapping :: rest =>
      if HTTPHeader mapping =? "" then Some (ErrHTTPHeaderEmpty i)
      else if GRPCMetadata mapping =? "" then Some (ErrGRPCMetadataEmpty i)
      else
        let key := mapping_key mapping in
        match seen !! key with
        | Some existing =>
            Some (ErrDuplicateMapping key (Direction existing)
                                      (Direction mapping))
        | None => validate_config_loop (S i) (<[key := mapping]> seen) rest
        end
  end.

Definition ValidateConfig (config : option Config) : option error :=
  match config with
  | None => Some ErrConfigurationNil
  | Some cfg => validate_config_loop 0 ∅ (Mappings cfg)
  end.

(** ** Statistics *)

Record Stats := {
  IncomingMappings : Z;
  OutgoingMappings : Z;
  FailedMappings : Z;
  LastUpdated : Z
}.

(** [GetStats] ("placeholder for future implementation"): a fresh [Stats]
    with only [LastUpdated] set, to the reading [now] of the clock. *)
Definition GetStats (hm : HeaderMapper) (now : Z) : Stats :=
  {| IncomingMappings := 0; OutgoingMappings := 0; FailedMappings := 0;
     LastUpdated := now |}.

(** ** The fluent builder *)

Module Builder.

(** [type Builder struct { config *Config }]. *)
Record t := { config : Config }.

Definition NewBuilder : t := {| config := zero_Config |}.

Definition AddMapping (httpHeader grpcMetadata : string)
    (direction : MappingDirection) (b : t) : t :=
  {| config :=
      set_Mappings
        (Mappings (config b) ++
         [{| HTTPHeader := httpHeader; GRPCMetadata := grpcMetadata;
             Direction := direction; Transform := None; Required := false;
             DefaultValue := "" |}])%list
        (config b) |}.

Definition AddIncomingMapping (httpHeader grpcMetadata : string) : t → t :=
  AddMapping httpHeader grpcMetadata Incoming.

Definition AddOutgoingMapping (grpcMetadata httpHeader : string) : t → t :=
  AddMapping httpHeader grpcMetadata Outgoing.

Definition AddBidirectionalMapping (httpHeader grpcMetadata : string)
  : t → t :=
  AddMapping httpHeader grpcMetadata Bidirectional.

(** [if len(ms) > 0 { ms[len(ms)-1].field = value }]. *)
Definition update_last (f : HeaderMapping → HeaderMapping) (b : t) : t :=
  let ms := Mappings (config b) in
  if (0 <? length ms)%nat
  then {| config := set_Mappings (alter f (length ms - 1) ms) (config b) |}
  else b.

Definition WithTransform (transform : option TransformFunc) : t → t :=
  update_last (set_Transform transform).

Definition WithRequired (required : bool) : t → t :=
  update_last (set_Required required).

Definition WithDefault (defaultValue : string) : t → t :=
  update_last (set_DefaultValue defaultValue).

Definition SkipPaths (paths : list string) (b : t) : t :=
  {| config := set_SkipPaths paths (config b) |}.

Definition CaseSensitive (caseSensitive : bool) (b : t) : t :=
  {| config := set_CaseSensitive caseSensitive (config b) |}.

Definition OverwriteExisting (overwrite : bool) (b : t) : t :=
  {| config := set_OverwriteExisting overwrite (config b) |}.

Definition Debug (debug : bool) (b : t) : t :=
  {| config := set_Debug debug (config b) |}.

Definition Build (b : t) : HeaderMapper := NewHeaderMapper (Some (config b)).

End Builder.

(** ** Vocabulary of the specification *)

Definition has_empty_name (m : HeaderMapping) : Prop :=
  HTTPHeader m = "" ∨ GRPCMetadata m = "".

(** What one rule does with its destination. *)
Inductive rule_action :=
| Write (value : string)
| Reject
| MissingRequired
| Skip.

(** The rule semantics in the words of the specification: an absent source
    value is replaced by the default if there is one; absent with no default
    is a missing-field event for a required rule and nothing otherwise; a
    value is transformed and written only if overwriting is allowed or the
    destination is not populated yet. *)
Definition rule_semantics (overwrite : bool) (m : HeaderMapping)
    (source : option string) (populated : bool) : rule_action :=
  let source :=
    match source with
    | Some v => Some v
    | None => if DefaultValue m =? "" then None else Some (DefaultValue m)
    end in
  match source with
  | None => if Required m then MissingRequired else Skip
  | Some v =>
      if overwrite || negb populated then Write (apply_Transform m v)
      else Reject
  end.

(** The source value of the inbound pass: an empty header counts as absent. *)
Definition inbound_source (req : Request) (m : HeaderMapping) : option string :=
  let v := Header_Get (Req_Header req) (HTTPHeader m) in
  if v =? "" then None else Some v.

(** The source value of the outbound pass: the first metadata value. *)
Definition outbound_source (md : MD) (m : HeaderMapping) : option string :=
  head (MD_Get md (GRPCMetadata m)).

Definition inbound_populated (md : MD) (m : HeaderMapping) : bool :=
  (0 <? length (MD_Get md (GRPCMetadata m)))%nat.

Definition outbound_populated (w : Header) (m : HeaderMapping) : bool :=
  negb (Header_Get w (HTTPHeader m) =? "").

Definition missing_header_warning (m : HeaderMapping) : LogCall :=
  LogWarn [LogStr "Required header missing:"; LogStr (HTTPHeader m)].

Definition missing_metadata_warning (m : HeaderMapping) : LogCall :=
  LogWarn [LogStr "Required metadata missing:"; LogStr (GRPCMetadata m)].

(** The debug line that ends each pass. *)
Definition debug_incoming (cfg : Config) (md : MD) : Trace :=
  if Debug cfg
  then [LogDebug [LogStr "Mapped incoming headers:"; LogMD md]] else [].

Definition debug_outgoing (cfg : Config) : Trace :=
  if Debug cfg
  then [LogDebug [LogStr "Mapped outgoing headers to response"]] else [].

(** A metadata set carries the rewriting of [md] by the inbound rules when
    every value found under a rule's external name sits, transformed, under
    the rule's internal name. *)
Definition carries_rewritten (cfg : Config) (md md' : MD) : Prop :=
  ∀ m v rest,
    m ∈ Mappings cfg → Direction m ≠ Outgoing →
    MD_Get md (HTTPHeader m) = v :: rest →
    MD_Get md' (GRPCMetadata m) = [apply_Transform m v].

(** The entries of a metadata set that hold at least one value. *)
Definition nonempty_values (md : MD) : MD :=
  filter (λ kv : string * list string, kv.2 ≠ []) md.

(** The context with its incoming metadata, if any, replaced by a copy. *)
Definition copy_incoming (ctx : Context) : Context :=
  match FromIncomingContext ctx with
  | None => ctx
  | Some md => NewIncomingContext ctx (nonempty_values md)
  end.

(** All keys of a map are in lower case. *)
Definition lower_keys {A} (m : gmap string A) : Prop :=
  ∀ k, is_Some (m !! k) → Strings.ToLower k = k.

(** The mapper [hm] with another configuration. *)
Definition with_config (cfg : Config) (hm : HeaderMapper) : HeaderMapper :=
  {| config := Some cfg; skipPaths := skipPaths hm |}.

(** ** More transforms *)

(** Go's [int] is taken to be 64 bits wide: [wrap64] is the value an
    arithmetic result has after wrap-around. *)
Definition wrap64 (z : Z) : Z := ((z + 2 ^ 63) mod 2 ^ 64 - 2 ^ 63)%Z.

(** [len(s)]. *)
Definition len (s : string) : Z := Z.of_nat (String.length s).

Fixpoint take_bytes (n : nat) (s : string) : string :=
  match n, s with
  | S n', String c r => String c (take_bytes n' r)
  | _, _ => EmptyString
  end.

Fixpoint drop_bytes (n : nat) (s : string) : string :=
  match n, s with
  | S n', String c r => drop_bytes n' r
  | _, _ => s
  end.

(** [s[:hi]] and [s[lo:]]: a bound outside [0..len(s)] panics. *)
Definition slice_to (s : string) (hi : Z) : outcome string :=
  if ((0 <=? hi) && (hi <=? len s))%Z
  then Returned (take_bytes (Z.to_nat hi) s) else Panicked.

Definition slice_from (s : string) (lo : Z) : outcome string :=
  if ((0 <=? lo) && (lo <=? len s))%Z
  then Returned (drop_bytes (Z.to_nat lo) s) else Panicked.

Fixpoint repeat_string (s : string) (n : nat) : string :=
  match n with
  | O => EmptyString
  | S n' => (s ++ repeat_string s n')%string
  end.

(** [strings.Repeat]: a negative count panics. *)
Definition Repeat (s : string) (count : Z) : outcome string :=
  if (count <? 0)%Z then Panicked
  else Returned (repeat_string s (Z.to_nat count)).

(** [strings.TrimSuffix], as [strings.HasSuffix] and a slice. *)
Definition TrimSuffix (s suffix : string) : string :=
  let n := String.length s - String.length suffix in
  if (String.length suffix <=? String.length s)%nat
     && (drop_bytes n s =? suffix)
  then take_bytes n s else s.

Definition Normalize : TransformFunc :=
  λ value, Strings.ToLower (Strings.TrimSpace value).

(** [ExtractBearerToken]: [Strings.strip] gives [value[len(bearerPrefix):]]
    when [strings.HasPrefix] holds. *)
Definition ExtractBearerToken : TransformFunc :=
  λ value,
    let bearerPrefix := "Bearer " in
    match Strings.strip bearerPrefix value with
    | Some rest => Strings.TrimSpace rest
    | None => value
    end.

(** [MaskSensitive]; the three operands of the concatenation are evaluated
    from left to right and each may panic. *)
Definition MaskSensitive (showChars : Z) (value : string) : outcome string :=
  if (len value <=? wrap64 (showChars * 2))%Z then Repeat "*" (len value)
  else
    match slice_to value showChars with
    | Panicked => Panicked
    | Returned first =>
        match Repeat "*" (wrap64 (len value - wrap64 (showChars * 2))) with
        | Panicked => Panicked
        | Returned stars =>
            match slice_from value (wrap64 (len value - showChars)) with
            | Panicked => Panicked
            | Returned last => Returned (first ++ stars ++ last)%string
            end
        end
    end.

Definition Truncate (maxLength : Z) (value : string) : outcome string :=
  if (len value <=? maxLength)%Z then Returned value
  else slice_to value maxLength.

Definition AddSuffix (suffix : string) : TransformFunc :=
  λ value, (value ++ suffix)%string.

Definition RemoveSuffix (suffix : string) : TransformFunc :=
  λ value, TrimSuffix value suffix.

Definition DefaultIfEmpty (defaultValue : string) : TransformFunc :=
  λ value, if Strings.TrimSpace value =? "" then defaultValue else value.

(** ** [ConfigBuilder] *)

Module ConfigBuilder.

Record t := { config : Config }.

Definition NewConfigBuilder : t := {| config := zero_Config |}.

Definition WithMappings (mappings : list HeaderMapping) (cb : t) : t :=
  {| config := set_Mappings mappings (config cb) |}.

Definition AddMapping (mapping : HeaderMapping) (cb : t) : t :=
  {| config := set_Mappings (Mappings (config cb) ++ [mapping]) (config cb) |}.

Definition WithSkipPaths (paths : list string) (cb : t) : t :=
  {| config := set_SkipPaths paths (config cb) |}.

Definition WithCaseSensitive (caseSensitive : bool) (cb : t) : t :=
  {| config := set_CaseSensitive caseSensitive (config cb) |}.

Definition WithOverwriteExisting (overwrite : bool) (cb : t) : t :=
  {| config := set_OverwriteExisting overwrite (config cb) |}.

Definition WithDebug (debug : bool) (cb : t) : t :=
  {| config := set_Debug debug (config cb) |}.

Definition Build (cb : t) : Config := config cb.

End ConfigBuilder.

(** ** Predefined mappings *)

Definition literal (httpHeader grpcMetadata : string)
    (direction : MappingDirection) (required : bool) : HeaderMapping :=
  {| HTTPHeader := httpHeader; GRPCMetadata := grpcMetadata;
     Direction := direction; Transform := None; Required := required;
     DefaultValue := "" |}.

Definition CommonMappings : list HeaderMapping :=
  [ literal "User-Agent" "user-agent" Incoming false;
    literal "Authorization" "authorization" Incoming false;
    literal "Content-Type" "content-type" Bidirectional false;
    literal "Accept" "accept" Incoming false;
    literal "X-Request-ID" "x-request-id" Bidirectional false;
    literal "X-Correlation-ID" "x-correlation-id" Bidirectional false ].

Definition AuthMappings : list HeaderMapping :=
  [ literal "Authorization" "authorization" Incoming true;
    literal "X-API-Key" "x-api-key" Incoming false;
    literal "X-User-ID" "x-user-id" Bidirectional false ].

Definition TracingMappings : list HeaderMapping :=
  [ literal "X-Trace-ID" "x-trace-id" Bidirectional false;
    literal "X-Span-ID" "x-span-id" Bidirectional false;
    literal "X-Request-ID" "x-request-id" Bidirectional false;
    literal "X-Correlation-ID" "x-correlation-id" Bidirectional false ].

(** ** Vocabulary for the further properties *)

Definition set_Direction (d : MappingDirection) (m : HeaderMapping)
  : HeaderMapping :=
  {| HTTPHeader := HTTPHeader m; GRPCMetadata := GRPCMetadata m;
     Direction := d; Transform := Transform m; Required := Required m;
     DefaultValue := DefaultValue m |}.

(** The key under which [HeaderMatcher] files and looks up a name. *)
Definition policy_key (cfg : Config) (name : string) : string :=
  if negb (CaseSensitive cfg) then Strings.ToLower name else name.


(** The rules for which the outbound pass warns. *)
Definition missing_required_metadata (md : MD) (m : HeaderMapping) : bool :=
  negb (Direction m =? Incoming)%Z && Required m
  && (length (MD_Get md (GRPCMetadata m)) =? 0)%nat
  && (DefaultValue m =? "").

(** The header value of a rule after the substitution of its default:
    [headerValue] of [mapIncomingHeader] when it reaches the required check;
    [""] when the rule has nothing to write. *)
Definition effective_value (req : Request) (m : HeaderMapping) : string :=
  let headerValue := Header_Get (Req_Header req) (HTTPHeader m) in
  if (headerValue =? "") && negb (DefaultValue m =? "")
  then DefaultValue m else headerValue.

(** Every entry of the metadata built by the loop holds one value and sits
    under the lower-cased key of a rule that is not outgoing. *)
Definition rule_entries (rules : list HeaderMapping) (md : MD) : Prop :=
  ∀ k vs, md !! k = Some vs →
    (∃ v, vs = [v])
    ∧ ∃ m, m ∈ rules ∧ Direction m ≠ Outgoing
           ∧ k = Strings.ToLower (GRPCMetadata m).

(** One turn of the loop that builds [headerMap]. *)
Definition headerMap_step (cfg : Config) (acc : gmap string string)
    (mapping : HeaderMapping) : gmap string string :=
  if negb (Direction mapping =? Outgoing)%Z then
    <[policy_key cfg (HTTPHeader mapping) := GRPCMetadata mapping]> acc
  else acc.

(** The calls of the builder that set a policy of the configuration. *)
Inductive policy_call :=
| CallSkipPaths (paths : list string)
| CallCaseSensitive (caseSensitive : bool)
| CallOverwriteExisting (overwrite : bool)
| CallDebug (debug : bool).

Definition run_policy (call : policy_call) : Builder.t → Builder.t :=
  match call with
  | CallSkipPaths paths => Builder.SkipPaths paths
  | CallCaseSensitive b => Builder.CaseSensitive b
  | CallOverwriteExisting b => Builder.OverwriteExisting b
  | CallDebug b => Builder.Debug b
  end.

Definition same_policy (c1 c2 : policy_call) : bool :=
  match c1, c2 with
  | CallSkipPaths _, CallSkipPaths _
  | CallCaseSensitive _, CallCaseSensitive _
  | CallOverwriteExisting _, CallOverwriteExisting _
  | CallDebug _, CallDebug _ => true
  | _, _ => false
  end.

(** The first value of an entry of a header set, [""] if there is none. *)
Definition first_value (entry : option (list string)) : string :=
  match entry with
  | Some (v :: _) => v
  | _ => ""
  end.

(** What one outbound rule does to the entry under the canonical key [k]
    of the header sink. *)
Definition key_step (cfg : Config) (md : MD) (k : string)
    (entry : option (list string)) (m : HeaderMapping)
  : option (list string) :=
  if decide (Textproto.CanonicalMIMEHeaderKey (HTTPHeader m) = k) then
    match rule_semantics (OverwriteExisting cfg) m (outbound_source md m)
                         (negb (first_value entry =? "")) with
    | Write v => Some [v]
    | _ => entry
    end
  else entry.

(** What the outbound pass does to the entry under the key [k]. *)
Fixpoint key_loop (cfg : Config) (md : MD) (k : string)
    (mappings : list HeaderMapping) (entry : option (list string))
  : option (list string) :=
  match mappings with
  | [] => entry
  | m :: rest =>
      if (Direction m =? Incoming)%Z then key_loop cfg md k rest entry
      else key_loop cfg md k rest (key_step cfg md k entry m)
  end.

(** ** Example data *)

Definition rule (httpHeader grpcMetadata : string)
    (direction : MappingDirection) : HeaderMapping :=
  {| HTTPHeader := httpHeader; GRPCMetadata := grpcMetadata;
     Direction := direction; Transform := None; Required := false;
     DefaultValue := "" |}.

Definition config_of (ms : list HeaderMapping) : Config :=
  set_Mappings ms zero_Config.

(** A rule declared in lower case, under either case policy. *)
Definition user_id_mapper (caseSensitive : bool) : HeaderMapper :=
  Builder.Build
    (Builder.CaseSensitive caseSensitive
       (Builder.AddIncomingMapping "x-user-id" "user-id" Builder.NewBuilder)).

Definition user_id_request : Request :=
  {| URL_Path := "/api/test"; Req_Header := {[ "X-User-Id" := ["42"] ]} |}.

(** The mapper, context and method of the package's interceptor test. *)
Definition interceptor_mapper : HeaderMapper :=
  Builder.Build
    (Builder.AddIncomingMapping "X-User-ID" "user-id" Builder.NewBuilder).

Definition interceptor_md : MD := {[ "x-user-id" := ["12345"] ]}.

Definition interceptor_ctx : Context :=
  {| ctx_incoming := Some interceptor_md; ctx_server := None |}.

Definition interceptor_info : UnaryServerInfo :=
  {| FullMethod := "/test.Service/Method" |}.

(** The mapper and request of the test "required header missing". *)
Definition required_mapper : HeaderMapper :=
  Builder.Build
    (Builder.WithRequired true
       (Builder.AddIncomingMapping "X-Required" "required"
          Builder.NewBuilder)).

Definition bare_request : Request :=
  {| URL_Path := "/api/test"; Req_Header := ∅ |}.

(** A rule with a transform, and a request whose header is present with an
    empty value. *)
Definition token_rule : HeaderMapping :=
  set_Transform (Some (AddPrefix "id-")) (rule "X-Token" "token" Incoming).

Definition token_mapper : HeaderMapper :=
  NewHeaderMapper (Some (config_of [token_rule])).

Definition empty_token_request : Request :=
  {| URL_Path := "/api/test"; Req_Header := {[ "X-Token" := [""] ]} |}.

(** The mapper and request of the test "skip path", with a header added. *)
Definition health_mapper : HeaderMapper :=
  Builder.Build
    (Builder.SkipPaths ["/health"]
       (Builder.AddIncomingMapping "X-User-ID" "user-id" Builder.NewBuilder)).

Definition health_request : Request :=
  {| URL_Path := "/health"; Req_Header := {[ "X-User-Id" := ["12345"] ]} |}.

(** Two rules that write one metadata key. *)
Definition first_id_rule : HeaderMapping := rule "X-User-ID" "user-id" Incoming.
Definition second_id_rule : HeaderMapping :=
  set_Transform (Some ToUpper) (rule "X-Alt-ID" "User-Id" Bidirectional).

Definition two_writers_mapper : HeaderMapper :=
  NewHeaderMapper (Some (config_of [first_id_rule; second_id_rule])).

Definition two_ids_request : Request :=
  {| URL_Path := "/api/test";
     Req_Header := {[ "X-User-Id" := ["12345"]; "X-Alt-Id" := ["abc"] ]} |}.

(** An outgoing rule and metadata with two values under its key. *)
Definition response_time_rule : HeaderMapping :=
  rule "X-Response-Time" "response-time" Outgoing.

Definition response_time_mapper : HeaderMapper :=
  NewHeaderMapper (Some (config_of [response_time_rule])).

Definition response_time_ctx : Context :=
  {| ctx_incoming := None;
     ctx_server :=
       Some {| HeaderMD := {[ "response-time" := ["150ms"; "151ms"] ]};
               TrailerMD := ∅ |} |}.


(** The same pair of names in two rules. *)
Definition duplicate_config : Config :=
  config_of [rule "X-Test" "test" Incoming; rule "X-Test" "test" Outgoing].

(** A rule with a default, a request whose header is present and empty,
    and metadata whose value is present and empty. *)
Definition default_k_rule : HeaderMapping :=
  set_DefaultValue "d" (rule "X-K" "k" Bidirectional).

Definition default_k_mapper : HeaderMapper :=
  NewHeaderMapper (Some (config_of [default_k_rule])).

Definition empty_k_request : Request :=
  {| URL_Path := "/api/test"; Req_Header := {[ "X-K" := [""] ]} |}.

Definition empty_k_metadata : ServerMetadata :=
  {| HeaderMD := {[ "k" := [""] ]}; TrailerMD := ∅ |}.



(** A value of ASCII bytes only. *)
Definition ascii_only (s : string) : Prop :=
  Strings.all_bytes (λ c, (N_of_ascii c <? 128)%N) s = true.



Definition noisy_user_id_request : Request :=
  {| URL_Path := "/api/test";
     Req_Header := {[ "X-User-Id" := ["42"]; "X-Other" := ["noise"] ]} |}.



Definition content_type_sink : Header :=
  {[ "Content-Type" := ["text/plain"] ]}.

Definition incomplete_config : Config :=
  config_of [rule "X-A" "a" Incoming; rule "X-B" "" Incoming].

(** * Properties *)

(** ** Basic facts about the library models *)

Lemma MD_New_empty : MD_New ∅ = ∅.
Proof. unfold MD_New. apply map_fold_empty. Qed.

Lemma eqb_empty_true (s : string) : (s =? "") = true ↔ s = "".
Proof. apply String.eqb_eq. Qed.

Lemma eqb_empty_false (s : string) : (s =? "") = false ↔ s ≠ "".
Proof. apply String.eqb_neq. Qed.

(** ** Transform pipeline *)

Lemma strip_app p r : Strings.strip p (p ++ r)%string = Some r.
Proof.
  induction p as [|c p IH]; simpl; [by destruct r|].
  by rewrite Ascii.eqb_refl.
Qed.

(** [RemovePrefix] undoes [AddPrefix]. *)
Lemma RemovePrefix_AddPrefix prefix value :
  RemovePrefix prefix (AddPrefix prefix value) = value.
Proof.
  unfold RemovePrefix, AddPrefix, Strings.TrimPrefix. by rewrite strip_app.
Qed.

Lemma ChainTransforms_app (fs gs : list (option TransformFunc)) value :
  ChainTransforms (fs ++ gs) value
  = ChainTransforms gs (ChainTransforms fs value).
Proof. unfold ChainTransforms. apply fold_left_app. Qed.

(** The chain is the left-to-right composition of its non-nil members. *)
Lemma ChainTransforms_non_nil (fs : list (option TransformFunc)) value :
  ChainTransforms fs value
  = fold_left (λ result (f : TransformFunc), f result) (omap id fs) value.
Proof.
  unfold ChainTransforms. revert value.
  induction fs as [|[f|] fs IH]; intros value; simpl; auto.
Qed.

(** C8. [ChainTransforms(f1, ..., fn)] applies its functions strictly left
    to right: the empty chain is the identity, a leading function is applied
    before the rest of the chain, a nil function is skipped, and a chain
    split in two runs its first part and then its second; the result is a
    total function (no error). On ["  Bearer abc123  "] the chain of
    [TrimSpace] and [RemovePrefix("Bearer ")] yields ["abc123"]. *)
Theorem ChainTransforms_left_to_right :
  (∀ value, ChainTransforms [] value = value)
  ∧ (∀ (f : TransformFunc) rest value,
       ChainTransforms (Some f :: rest) value
       = ChainTransforms rest (f value))
  ∧ (∀ rest value,
       ChainTransforms (None :: rest) value = ChainTransforms rest value)
  ∧ (∀ fs gs value,
       ChainTransforms (fs ++ gs) value
       = ChainTransforms gs (ChainTransforms fs value))
  ∧ (∀ fs value,
       ChainTransforms fs value
       = fold_left (λ result (f : TransformFunc), f result)
                   (omap id fs) value)
  ∧ ChainTransforms [Some TrimSpace; Some (RemovePrefix "Bearer ")]
                    "  Bearer abc123  " = "abc123".
Proof.
  repeat split; try reflexivity.
  - apply ChainTransforms_app.
  - apply ChainTransforms_non_nil.
Qed.

(** The chain of the package's own test. *)
Example ChainTransforms_test :
  ChainTransforms [Some TrimSpace; Some (RemovePrefix "Bearer "); Some ToLower]
                  "  Bearer TOKEN  " = "token".
Proof. reflexivity. Qed.

(** ** Builder *)

Lemma alter_last {A} (f : A → A) (init : list A) (x : A) :
  alter f (length (init ++ [x]) - 1) (init ++ [x]) = init ++ [f x].
Proof.
  rewrite length_app; simpl.
  replace (length init + 1 - 1) with (length init + 0) by lia.
  rewrite (alter_app_r f init [x] 0). reflexivity.
Qed.

Lemma update_last_nil f sk cs ow dbg :
  Builder.update_last f
    {| Builder.config :=
        {| Mappings := []; SkipPaths := sk; CaseSensitive := cs;
           OverwriteExisting := ow; Debug := dbg |} |}
  = {| Builder.config :=
        {| Mappings := []; SkipPaths := sk; CaseSensitive := cs;
           OverwriteExisting := ow; Debug := dbg |} |}.
Proof. reflexivity. Qed.

Lemma update_last_snoc f init last sk cs ow dbg :
  Builder.update_last f
    {| Builder.config :=
        {| Mappings := init ++ [last]; SkipPaths := sk; CaseSensitive := cs;
           OverwriteExisting := ow; Debug := dbg |} |}
  = {| Builder.config :=
        {| Mappings := init ++ [f last]; SkipPaths := sk;
           CaseSensitive := cs; OverwriteExisting := ow; Debug := dbg |} |}.
Proof.
  unfold Builder.update_last; simpl.
  assert ((0 <? length (init ++ [last]))%nat = true) as ->.
  { apply Nat.ltb_lt. rewrite length_app; simpl; lia. }
  unfold set_Mappings; simpl. by rewrite alter_last.
Qed.

(** C9. On a builder without mappings [WithTransform], [WithRequired] and
    [WithDefault] change nothing.  On a builder whose mappings are
    [init ++ [last]] each of them sets its one field of [last] and leaves
    [init], the other fields of [last], the skip paths and the three policy
    flags as they were. *)
Theorem Builder_With_targets_last_mapping :
  ∀ (transform : option TransformFunc) (required : bool)
    (defaultValue : string) sk cs ow dbg,
    let builder ms :=
      {| Builder.config :=
          {| Mappings := ms; SkipPaths := sk; CaseSensitive := cs;
             OverwriteExisting := ow; Debug := dbg |} |} in
    (Builder.WithTransform transform (builder []) = builder []
     ∧ Builder.WithRequired required (builder []) = builder []
     ∧ Builder.WithDefault defaultValue (builder []) = builder [])
    ∧ ∀ init h g d t r dv,
        let last :=
          {| HTTPHeader := h; GRPCMetadata := g; Direction := d;
             Transform := t; Required := r; DefaultValue := dv |} in
        Builder.WithTransform transform (builder (init ++ [last]))
        = builder (init ++
                   [{| HTTPHeader := h; GRPCMetadata := g; Direction := d;
                       Transform := transform; Required := r;
                       DefaultValue := dv |}])
        ∧ Builder.WithRequired required (builder (init ++ [last]))
          = builder (init ++
                     [{| HTTPHeader := h; GRPCMetadata := g; Direction := d;
                         Transform := t; Required := required;
                         DefaultValue := dv |}])
        ∧ Builder.WithDefault defaultValue (builder (init ++ [last]))
          = builder (init ++
                     [{| HTTPHeader := h; GRPCMetadata := g; Direction := d;
                         Transform := t; Required := r;
                         DefaultValue := defaultValue |}]).
Proof.
  intros transform required defaultValue sk cs ow dbg builder.
  split; [repeat split|].
  intros init h g d t r dv last.
  unfold Builder.WithTransform, Builder.WithRequired, Builder.WithDefault.
  subst builder; cbv beta.
  rewrite !update_last_snoc. repeat split.
Qed.

(** ** Validation *)

Lemma validate_loop_Some (ms : list HeaderMapping) (i : nat) :
  is_Some (validate_loop i ms) ↔ ∃ m, m ∈ ms ∧ has_empty_name m.
Proof.
  revert i. induction ms as [|a ms IH]; intros i; simpl.
  - split; [intros [e He]; discriminate|].
    intros (m & Hm & _). by apply elem_of_nil in Hm.
  - destruct (HTTPHeader a =? "") eqn:Hh.
    { split; [|by eauto]. intros _. exists a. split; [left|].
      left. by apply eqb_empty_true. }
    destruct (GRPCMetadata a =? "") eqn:Hg.
    { split; [|by eauto]. intros _. exists a. split; [left|].
      right. by apply eqb_empty_true. }
    rewrite IH. apply eqb_empty_false in Hh, Hg. split.
    + intros (m & Hm & He). exists m. split; [by right|done].
    + intros (m & Hm & He). apply elem_of_cons in Hm as [->|Hm].
      * destruct He; contradiction.
      * by exists m.
Qed.

Lemma validate_loop_no_duplicate_error (ms : list HeaderMapping) i key d1 d2 :
  validate_loop i ms ≠ Some (ErrDuplicateMapping key d1 d2).
Proof.
  revert i. induction ms as [|a ms IH]; intros i; simpl; [done|].
  destruct (HTTPHeader a =? ""); [done|].
  destruct (GRPCMetadata a =? ""); [done|]. apply IH.
Qed.

(** A rule whose key is already in [seen] stops [ValidateConfig]. *)
Lemma validate_config_loop_seen (ms : list HeaderMapping) i seen m :
  m ∈ ms → is_Some (seen !! mapping_key m) →
  is_Some (validate_config_loop i seen ms).
Proof.
  revert i seen. induction ms as [|a ms IH]; intros i seen Hm Hseen.
  { by apply elem_of_nil in Hm. }
  simpl. destruct (HTTPHeader a =? ""); [by eauto|].
  destruct (GRPCMetadata a =? ""); [by eauto|].
  destruct (seen !! mapping_key a) as [existing|] eqn:Ha; [by eauto|].
  apply elem_of_cons in Hm as [->|Hm].
  - rewrite Ha in Hseen. by destruct Hseen.
  - apply IH; [done|]. rewrite lookup_insert. case_decide; [by eauto|done].
Qed.

Lemma validate_config_loop_duplicate (ms : list HeaderMapping) i seen
    (j1 j2 : nat) m1 m2 :
  j1 < j2 → ms !! j1 = Some m1 → ms !! j2 = Some m2 →
  mapping_key m1 = mapping_key m2 →
  is_Some (validate_config_loop i seen ms).
Proof.
  revert i seen j1 j2.
  induction ms as [|a ms IH]; intros i seen j1 j2 Hlt H1 H2 Hkey; [done|].
  simpl. destruct (HTTPHeader a =? ""); [by eauto|].
  destruct (GRPCMetadata a =? ""); [by eauto|].
  destruct (seen !! mapping_key a) as [existing|] eqn:Ha; [by eauto|].
  destruct j2 as [|j2]; [lia|]. simpl in H2.
  destruct j1 as [|j1]; simpl in H1.
  - injection H1 as ->.
    apply (validate_config_loop_seen ms _ _ m2).
    + apply list_elem_of_lookup. by exists j2.
    + rewrite <- Hkey, lookup_insert_eq. by eauto.
  - apply (IH _ _ j1 j2); [lia|done..].
Qed.

(** C7. [Validate] returns an error exactly when the configuration is nil
    or some rule has an empty HTTP header name or an empty gRPC metadata
    name; the error is never the duplicate-mapping error.  [ValidateConfig]
    returns an error whenever two rules of the configuration carry the same
    (HTTP header, gRPC metadata) pair. *)
Theorem Validate_empty_names_only (hm : HeaderMapper) :
  (is_Some (Validate hm) ↔
     config hm = None
     ∨ ∃ cfg m, config hm = Some cfg ∧ m ∈ Mappings cfg ∧ has_empty_name m)
  ∧ (∀ key d1 d2, Validate hm ≠ Some (ErrDuplicateMapping key d1 d2))
  ∧ (∀ cfg (j1 j2 : nat) m1 m2,
       j1 < j2 →
       Mappings cfg !! j1 = Some m1 → Mappings cfg !! j2 = Some m2 →
       HTTPHeader m1 = HTTPHeader m2 → GRPCMetadata m1 = GRPCMetadata m2 →
       is_Some (ValidateConfig (Some cfg))).
Proof.
  split; [|split].
  - unfold Validate. destruct (config hm) as [cfg|].
    + rewrite validate_loop_Some. split.
      * intros (m & Hm & He). right. by exists cfg, m.
      * intros [?|(cfg' & m & [= <-] & Hm & He)]; [done|]. by exists m.
    + split; [by left|by eauto].
  - intros key d1 d2. unfold Validate.
    destruct (config hm) as [cfg|]; [|done].
    apply validate_loop_no_duplicate_error.
  - intros cfg j1 j2 m1 m2 Hlt H1 H2 Hh Hg. simpl.
    apply (validate_config_loop_duplicate _ _ _ j1 j2 m1 m2); try done.
    unfold mapping_key. by rewrite Hh, Hg.
Qed.

(** ** Skip paths *)

Lemma NewHeaderMapper_skipped (cfg : Config) (path : string) :
  skipped (NewHeaderMapper (Some cfg)) path = true ↔ path ∈ SkipPaths cfg.
Proof.
  unfold skipped, NewHeaderMapper; simpl.
  set (step := λ (acc : gmap string bool) p, <[p := true]> acc).
  assert (∀ ps (acc : gmap string bool),
            default false (fold_left step ps acc !! path) = true
            ↔ path ∈ ps ∨ default false (acc !! path) = true) as Hfold.
  { induction ps as [|p ps IH]; intros acc; simpl.
    - split; [by right|]. intros [H|H]; [by apply elem_of_nil in H|done].
    - rewrite IH. unfold step. rewrite lookup_insert, elem_of_cons.
      case_decide; simpl; [subst; intuition|intuition congruence]. }
  rewrite Hfold, lookup_empty. simpl. intuition congruence.
Qed.

(** C3. When the path of the request is in the skip set, the annotator
    returns the empty metadata and makes no call on the logger: no rule is
    evaluated, whatever the headers of the request and whatever the
    configuration (even a nil one).  For a mapper made by [NewHeaderMapper]
    the skip set holds the skip paths of the configuration. *)
Theorem MetadataAnnotator_skip_path
    (hm : HeaderMapper) (cfg : Config) (req : Request) :
  (skipped hm (URL_Path req) = true →
   MetadataAnnotator hm req = Returned (∅, []))
  ∧ (URL_Path req ∈ SkipPaths cfg →
     MetadataAnnotator (NewHeaderMapper (Some cfg)) req = Returned (∅, [])).
Proof.
  assert (∀ hm', skipped hm' (URL_Path req) = true →
                 MetadataAnnotator hm' req = Returned (∅, [])) as Hskip.
  { intros hm' Hs. unfold MetadataAnnotator. by rewrite Hs, MD_New_empty. }
  split; [apply Hskip|].
  intros Hin. by apply Hskip, NewHeaderMapper_skipped.
Qed.

(** ** Metadata and header primitives *)

Lemma MD_Get_Set_eq (md : MD) k v :
  MD_Get (MD_Set md k [v]) k = [v].
Proof. unfold MD_Get, MD_Set. by rewrite lookup_insert_eq. Qed.

Lemma MD_Get_Set_ne (md : MD) k k' vals :
  Strings.ToLower k ≠ Strings.ToLower k' →
  MD_Get (MD_Set md k vals) k' = MD_Get md k'.
Proof.
  intros Hne. unfold MD_Get, MD_Set. destruct vals; [done|].
  by rewrite lookup_insert_ne.
Qed.

Lemma Header_Get_Set_eq (w : Header) key value :
  Header_Get (Header_Set w key value) key = value.
Proof. unfold Header_Get, Header_Set. by rewrite lookup_insert_eq. Qed.

Lemma length_pos_nonempty {A} (l : list A) :
  (0 <? length l)%nat = true ↔ l ≠ [].
Proof. destruct l; simpl; split; (done || lia || congruence). Qed.

Arguments MD_Set : simpl never.
Arguments MD_Get : simpl never.
Arguments Header_Set : simpl never.
Arguments Header_Get : simpl never.

(** ** One rule of each pass *)

(** The inbound step is the rule semantics read on the request headers and
    written to the metadata. *)
Lemma mapIncomingHeader_semantics cfg req md m :
  mapIncomingHeader cfg req md m
  = match rule_semantics (OverwriteExisting cfg) m (inbound_source req m)
                         (inbound_populated md m) with
    | Write v => (MD_Set md (GRPCMetadata m) [v], [])
    | Reject | Skip => (md, [])
    | MissingRequired => (md, [missing_header_warning m])
    end.
Proof.
  unfold mapIncomingHeader, rule_semantics, inbound_source, inbound_populated,
    missing_header_warning.
  destruct (Header_Get (Req_Header req) (HTTPHeader m) =? "") eqn:Hv; simpl.
  - destruct (DefaultValue m =? "") eqn:Hd; simpl.
    + apply eqb_empty_true in Hv. rewrite Hv. simpl.
      by destruct (Required m).
    + rewrite Hd. simpl.
      by destruct (OverwriteExisting cfg),
           (0 <? length (MD_Get md (GRPCMetadata m)))%nat.
  - rewrite Hv. simpl.
    by destruct (OverwriteExisting cfg),
         (0 <? length (MD_Get md (GRPCMetadata m)))%nat.
Qed.

(** The outbound step is the same rule semantics read on the first metadata
    value and written to the header sink. *)
Lemma mapOutgoingHeader_semantics cfg md w m :
  mapOutgoingHeader cfg md w m
  = match rule_semantics (OverwriteExisting cfg) m (outbound_source md m)
                         (outbound_populated w m) with
    | Write v => (Header_Set w (HTTPHeader m) v, [])
    | Reject | Skip => (w, [])
    | MissingRequired => (w, [missing_metadata_warning m])
    end.
Proof.
  unfold mapOutgoingHeader, rule_semantics, outbound_source,
    outbound_populated, missing_metadata_warning.
  destruct (MD_Get md (GRPCMetadata m)) as [|v rest]; simpl.
  - destruct (DefaultValue m =? ""); simpl.
    + by destruct (Required m).
    + by destruct (OverwriteExisting cfg),
           (Header_Get w (HTTPHeader m) =? "").
  - by destruct (OverwriteExisting cfg), (Header_Get w (HTTPHeader m) =? "").
Qed.

Lemma mapIncomingHeader_write cfg req md m v :
  Header_Get (Req_Header req) (HTTPHeader m) = v → v ≠ "" →
  OverwriteExisting cfg = true ∨ MD_Get md (GRPCMetadata m) = [] →
  mapIncomingHeader cfg req md m
  = (MD_Set md (GRPCMetadata m) [apply_Transform m v], []).
Proof.
  intros Hv Hne Hok. rewrite mapIncomingHeader_semantics.
  unfold rule_semantics, inbound_source, inbound_populated. rewrite Hv.
  apply eqb_empty_false in Hne. rewrite Hne.
  destruct Hok as [-> | ->]; [done|]. simpl. by rewrite orb_true_r.
Qed.

Lemma mapIncomingHeader_reject cfg req md m :
  OverwriteExisting cfg = false → MD_Get md (GRPCMetadata m) ≠ [] →
  (mapIncomingHeader cfg req md m).1 = md.
Proof.
  intros How Hpop. rewrite mapIncomingHeader_semantics.
  unfold rule_semantics, inbound_populated. rewrite How.
  apply length_pos_nonempty in Hpop. rewrite Hpop. simpl.
  by repeat case_match.
Qed.

Lemma mapIncomingHeader_missing cfg req md m :
  Header_Get (Req_Header req) (HTTPHeader m) = "" → DefaultValue m = "" →
  mapIncomingHeader cfg req md m
  = (md, if Required m then [missing_header_warning m] else []).
Proof.
  intros Hv Hd. rewrite mapIncomingHeader_semantics.
  unfold rule_semantics, inbound_source. rewrite Hv, Hd. simpl.
  by destruct (Required m).
Qed.

(** Under first-writer-wins a step never changes a populated key. *)
Lemma mapIncomingHeader_keeps_populated cfg req md m k :
  OverwriteExisting cfg = false → MD_Get md k ≠ [] →
  MD_Get (mapIncomingHeader cfg req md m).1 k = MD_Get md k.
Proof.
  intros How Hpop. rewrite mapIncomingHeader_semantics.
  unfold rule_semantics, inbound_populated. rewrite How. simpl.
  assert (negb (0 <? length (MD_Get md (GRPCMetadata m)))%nat = true →
          Strings.ToLower (GRPCMetadata m) ≠ Strings.ToLower k) as Hkey.
  { intros Hlen Heq. apply negb_true_iff, Nat.ltb_ge in Hlen.
    apply Hpop. unfold MD_Get in *. rewrite <- Heq.
    destruct (default [] (md !! Strings.ToLower (GRPCMetadata m)));
      [done|simpl in Hlen; lia]. }
  repeat case_match; simpl; try done; apply MD_Get_Set_ne; auto.
Qed.

(** A step touches no key but the rule's own. *)
Lemma mapIncomingHeader_other_key cfg req md m k :
  Strings.ToLower (GRPCMetadata m) ≠ Strings.ToLower k →
  MD_Get (mapIncomingHeader cfg req md m).1 k = MD_Get md k.
Proof.
  intros Hne. rewrite mapIncomingHeader_semantics.
  repeat case_match; simpl; try done. by apply MD_Get_Set_ne.
Qed.

(** ** The loops of the two passes *)

Lemma incoming_loop_cons cfg req m rest md :
  Direction m ≠ Outgoing →
  incoming_loop cfg req (m :: rest) md
  = let a := mapIncomingHeader cfg req md m in
    let f := incoming_loop cfg req rest a.1 in
    (f.1, a.2 ++ f.2).
Proof.
  intros Hd. simpl. apply Z.eqb_neq in Hd. rewrite Hd.
  destruct (mapIncomingHeader cfg req md m) as [md1 t1]; simpl.
  by destruct (incoming_loop cfg req rest md1).
Qed.

Lemma incoming_loop_app cfg req pre post md :
  incoming_loop cfg req (pre ++ post) md
  = let b := incoming_loop cfg req pre md in
    let f := incoming_loop cfg req post b.1 in
    (f.1, b.2 ++ f.2).
Proof.
  revert md. induction pre as [|m pre IH]; intros md; simpl.
  - by destruct (incoming_loop cfg req post md).
  - destruct (Direction m =? Outgoing)%Z; [apply IH|].
    destruct (mapIncomingHeader cfg req md m) as [md1 t1].
    rewrite IH. simpl.
    destruct (incoming_loop cfg req pre md1) as [md2 t2]; simpl.
    destruct (incoming_loop cfg req post md2) as [md3 t3]; simpl.
    by rewrite app_assoc.
Qed.

Lemma incoming_loop_split cfg req earlier rule later md :
  Direction rule ≠ Outgoing →
  incoming_loop cfg req (earlier ++ rule :: later) md
  = let b := incoming_loop cfg req earlier md in
    let a := mapIncomingHeader cfg req b.1 rule in
    let f := incoming_loop cfg req later a.1 in
    (f.1, b.2 ++ a.2 ++ f.2).
Proof.
  intros Hd. rewrite incoming_loop_app. cbv zeta.
  by rewrite (incoming_loop_cons _ _ rule later _ Hd).
Qed.

Lemma incoming_loop_keeps_populated cfg req ms md k :
  OverwriteExisting cfg = false → MD_Get md k ≠ [] →
  MD_Get (incoming_loop cfg req ms md).1 k = MD_Get md k.
Proof.
  intros How. revert md. induction ms as [|m ms IH]; intros md Hpop; [done|].
  simpl. destruct (Direction m =? Outgoing)%Z; [by apply IH|].
  pose proof (mapIncomingHeader_keeps_populated cfg req md m k How Hpop) as Hs.
  destruct (mapIncomingHeader cfg req md m) as [md1 t1]; simpl in Hs.
  specialize (IH md1). rewrite Hs in IH. specialize (IH Hpop).
  by destruct (incoming_loop cfg req ms md1).
Qed.

Lemma incoming_loop_other_key cfg req ms md k :
  (∀ m, m ∈ ms → Direction m ≠ Outgoing →
        Strings.ToLower (GRPCMetadata m) ≠ Strings.ToLower k) →
  MD_Get (incoming_loop cfg req ms md).1 k = MD_Get md k.
Proof.
  revert md. induction ms as [|m ms IH]; intros md Hother; [done|].
  assert (∀ md', MD_Get (incoming_loop cfg req ms md').1 k = MD_Get md' k)
    as IH'.
  { intros md'. apply IH. intros m' Hm'. apply Hother. by right. }
  simpl. destruct (Direction m =? Outgoing)%Z eqn:Hd; [apply IH'|].
  apply Z.eqb_neq in Hd.
  pose proof (mapIncomingHeader_other_key cfg req md m k) as Hs.
  destruct (mapIncomingHeader cfg req md m) as [md1 t1]; simpl in Hs.
  specialize (IH' md1).
  destruct (incoming_loop cfg req ms md1); simpl in *.
  rewrite IH'. apply Hs, Hother; [by left|done].
Qed.

Lemma MetadataAnnotator_run hm cfg req :
  config hm = Some cfg → skipped hm (URL_Path req) = false →
  MetadataAnnotator hm req
  = let r := incoming_loop cfg req (Mappings cfg) ∅ in
    Returned (r.1, r.2 ++ debug_incoming cfg r.1).
Proof.
  intros Hcfg Hskip. unfold MetadataAnnotator.
  rewrite Hskip, Hcfg, MD_New_empty.
  by destruct (incoming_loop cfg req (Mappings cfg) ∅).
Qed.

Lemma outgoing_loop_cons cfg md m rest w :
  Direction m ≠ Incoming →
  outgoing_loop cfg md (m :: rest) w
  = let a := mapOutgoingHeader cfg md w m in
    let f := outgoing_loop cfg md rest a.1 in
    (f.1, a.2 ++ f.2).
Proof.
  intros Hd. simpl. apply Z.eqb_neq in Hd. rewrite Hd.
  destruct (mapOutgoingHeader cfg md w m) as [w1 t1]; simpl.
  by destruct (outgoing_loop cfg md rest w1).
Qed.

Lemma outgoing_loop_app cfg md pre post w :
  outgoing_loop cfg md (pre ++ post) w
  = let b := outgoing_loop cfg md pre w in
    let f := outgoing_loop cfg md post b.1 in
    (f.1, b.2 ++ f.2).
Proof.
  revert w. induction pre as [|m pre IH]; intros w; simpl.
  - by destruct (outgoing_loop cfg md post w).
  - destruct (Direction m =? Incoming)%Z; [apply IH|].
    destruct (mapOutgoingHeader cfg md w m) as [w1 t1].
    rewrite IH. simpl.
    destruct (outgoing_loop cfg md pre w1) as [w2 t2]; simpl.
    destruct (outgoing_loop cfg md post w2) as [w3 t3]; simpl.
    by rewrite app_assoc.
Qed.

Lemma outgoing_loop_split cfg md earlier rule later w :
  Direction rule ≠ Incoming →
  outgoing_loop cfg md (earlier ++ rule :: later) w
  = let b := outgoing_loop cfg md earlier w in
    let a := mapOutgoingHeader cfg md b.1 rule in
    let f := outgoing_loop cfg md later a.1 in
    (f.1, b.2 ++ a.2 ++ f.2).
Proof.
  intros Hd. rewrite outgoing_loop_app. cbv zeta.
  by rewrite (outgoing_loop_cons _ _ rule later _ Hd).
Qed.

Lemma ResponseModifier_run hm cfg ctx smd w :
  config hm = Some cfg → ServerMetadataFromContext ctx = Some smd →
  ResponseModifier hm ctx w
  = let r := outgoing_loop cfg (HeaderMD smd) (Mappings cfg) w in
    Returned (r.1, r.2 ++ debug_outgoing cfg).
Proof.
  intros Hcfg Hmd. unfold ResponseModifier. rewrite Hmd, Hcfg.
  by destruct (outgoing_loop cfg (HeaderMD smd) (Mappings cfg) w).
Qed.

(** The passes read the configuration only through its overwrite policy
    (and, for the closing debug line, its debug flag). *)
Lemma mapIncomingHeader_policy cfg cfg' req md m :
  OverwriteExisting cfg' = OverwriteExisting cfg →
  mapIncomingHeader cfg' req md m = mapIncomingHeader cfg req md m.
Proof. intros H. unfold mapIncomingHeader. by rewrite H. Qed.

Lemma incoming_loop_policy cfg cfg' req ms md :
  OverwriteExisting cfg' = OverwriteExisting cfg →
  incoming_loop cfg' req ms md = incoming_loop cfg req ms md.
Proof.
  intros H. revert md. induction ms as [|m ms IH]; intros md; [done|].
  simpl. rewrite (mapIncomingHeader_policy cfg cfg' req md m H).
  destruct (Direction m =? Outgoing)%Z; [apply IH|].
  destruct (mapIncomingHeader cfg req md m) as [md1 t1]. by rewrite IH.
Qed.

Lemma MD_Get_empty k : MD_Get ∅ k = [].
Proof. unfold MD_Get. by rewrite lookup_empty. Qed.

(** ** The inbound pass *)

(** C2 (amended). For a mapper with a configuration, a request whose path
    is not skipped and a rule that is not outgoing, whose header holds a
    non-empty first value [V]: the annotator returns the metadata obtained
    by running the earlier rules, then this rule, then the later ones.  With
    overwriting on, the rule writes [transform(V)] under its metadata key,
    replacing what was there.  With overwriting off, the rule writes
    [transform(V)] if no earlier rule populated the key, and that value is
    still there at the end; if an earlier rule populated the key, the write
    is rejected and the earlier value is the final one. *)
Theorem applyInbound_first_writer_wins
    (hm : HeaderMapper) (cfg : Config) (req : Request)
    (earlier later : list HeaderMapping) (rule : HeaderMapping)
    (V : string) :
  config hm = Some cfg →
  Mappings cfg = earlier ++ rule :: later →
  skipped hm (URL_Path req) = false →
  Direction rule ≠ Outgoing →
  Header_Get (Req_Header req) (HTTPHeader rule) = V → V ≠ "" →
  let before := (incoming_loop cfg req earlier ∅).1 in
  let after := (mapIncomingHeader cfg req before rule).1 in
  let final := (incoming_loop cfg req later after).1 in
  let key := GRPCMetadata rule in
  let value := apply_Transform rule V in
  (∃ t, MetadataAnnotator hm req = Returned (final, t))
  ∧ (OverwriteExisting cfg = true →
     after = MD_Set before key [value] ∧ MD_Get after key = [value])
  ∧ (OverwriteExisting cfg = false → MD_Get before key = [] →
     MD_Get after key = [value] ∧ MD_Get final key = [value])
  ∧ (OverwriteExisting cfg = false → MD_Get before key ≠ [] →
     after = before ∧ MD_Get final key = MD_Get before key).
Proof.
  intros Hcfg Hms Hskip Hd HV Hne before after final key value.
  assert (OverwriteExisting cfg = true ∨ MD_Get before key = [] →
          after = MD_Set before key [value]) as Hwrite.
  { intros Hok. subst after.
    by rewrite (mapIncomingHeader_write cfg req before rule V). }
  split; [|split; [|split]].
  - rewrite (MetadataAnnotator_run hm cfg req Hcfg Hskip), Hms.
    rewrite incoming_loop_split by done. simpl. by eexists.
  - intros How. rewrite Hwrite by auto. split; [done|apply MD_Get_Set_eq].
  - intros How Hfree.
    assert (MD_Get after key = [value]) as Hafter.
    { rewrite Hwrite by auto. apply MD_Get_Set_eq. }
    split; [done|]. subst final.
    rewrite incoming_loop_keeps_populated; [done..|]. by rewrite Hafter.
  - intros How Hpop.
    assert (after = before) as Hsame.
    { subst after. by apply mapIncomingHeader_reject. }
    split; [done|]. subst final. rewrite Hsame.
    by apply incoming_loop_keeps_populated.
Qed.

(** C1 (amended). For a mapper with a configuration, a request whose path
    is not skipped and a required rule (not outgoing) without default whose
    header is missing from the request: the rule leaves the metadata as it
    is and makes one [Warn] call on the logger; the annotator returns the
    metadata it returns without that rule, with that single call added to
    the trace, so the rule's key is absent unless another rule writes it;
    and the failure counter reported by [GetStats] is 0 at every time. *)
Theorem applyInbound_missing_required
    (hm : HeaderMapper) (cfg : Config) (req : Request)
    (earlier later : list HeaderMapping) (rule : HeaderMapping) :
  config hm = Some cfg →
  Mappings cfg = earlier ++ rule :: later →
  skipped hm (URL_Path req) = false →
  Direction rule ≠ Outgoing →
  Required rule = true →
  Header_Get (Req_Header req) (HTTPHeader rule) = "" →
  DefaultValue rule = "" →
  let without := with_config (set_Mappings (earlier ++ later) cfg) hm in
  let warning := missing_header_warning rule in
  (∀ md, mapIncomingHeader cfg req md rule = (md, [warning]))
  ∧ (∃ final t1 t2,
       MetadataAnnotator hm req = Returned (final, t1 ++ warning :: t2)
       ∧ MetadataAnnotator without req = Returned (final, t1 ++ t2)
       ∧ ((∀ m, m ∈ earlier ++ later → Direction m ≠ Outgoing →
             Strings.ToLower (GRPCMetadata m)
             ≠ Strings.ToLower (GRPCMetadata rule)) →
          MD_Get final (GRPCMetadata rule) = []))
  ∧ (∀ now, FailedMappings (GetStats hm now) = 0%Z).
Proof.
  intros Hcfg Hms Hskip Hd Hreq Hv Hdef without warning.
  assert (∀ md, mapIncomingHeader cfg req md rule = (md, [warning])) as Hstep.
  { intros md. rewrite mapIncomingHeader_missing by done. by rewrite Hreq. }
  split; [done|]. split; [|done].
  set (b := incoming_loop cfg req earlier ∅).
  set (f := incoming_loop cfg req later b.1).
  exists f.1, b.2, (f.2 ++ debug_incoming cfg f.1).
  split; [|split].
  - rewrite (MetadataAnnotator_run hm cfg req Hcfg Hskip), Hms.
    rewrite incoming_loop_split by done. cbv zeta. rewrite Hstep. simpl.
    by rewrite <- !app_assoc.
  - subst without.
    rewrite (MetadataAnnotator_run _ (set_Mappings (earlier ++ later) cfg))
      by done.
    rewrite (incoming_loop_policy cfg) by done. simpl.
    rewrite incoming_loop_app. simpl. by rewrite <- !app_assoc.
  - intros Hother.
    replace f.1 with (incoming_loop cfg req (earlier ++ later) ∅).1
      by (by rewrite incoming_loop_app).
    rewrite incoming_loop_other_key by done. apply MD_Get_empty.
Qed.

(** ** The outbound pass *)

Lemma mapOutgoingHeader_first_value cfg md md' w m :
  head (MD_Get md' (GRPCMetadata m)) = head (MD_Get md (GRPCMetadata m)) →
  mapOutgoingHeader cfg md' w m = mapOutgoingHeader cfg md w m.
Proof.
  intros Hhd. rewrite !mapOutgoingHeader_semantics.
  unfold outbound_source. by rewrite Hhd.
Qed.

(** What a step does once it has a value [v] to write: no logger call; the
    write of [transform(v)] when overwriting is on or the destination is
    free; nothing when overwriting is off and the destination is taken. *)
Lemma mapOutgoingHeader_value cfg md w m v :
  (∃ rest, MD_Get md (GRPCMetadata m) = v :: rest)
  ∨ (MD_Get md (GRPCMetadata m) = [] ∧ DefaultValue m = v ∧ v ≠ "") →
  let step := mapOutgoingHeader cfg md w m in
  step.2 = []
  ∧ (OverwriteExisting cfg = true ∨ Header_Get w (HTTPHeader m) = "" →
     step.1 = Header_Set w (HTTPHeader m) (apply_Transform m v)
     ∧ Header_Get step.1 (HTTPHeader m) = apply_Transform m v)
  ∧ (OverwriteExisting cfg = false → Header_Get w (HTTPHeader m) ≠ "" →
     step.1 = w).
Proof.
  intros Hsrc step. subst step. rewrite mapOutgoingHeader_semantics.
  assert (∀ p, rule_semantics (OverwriteExisting cfg) m
                 (outbound_source md m) p
               = if OverwriteExisting cfg || negb p
                 then Write (apply_Transform m v) else Reject) as ->.
  { intros p. unfold rule_semantics, outbound_source.
    destruct Hsrc as [[rest ->]|(-> & <- & Hne)]; simpl; [done|].
    by rewrite (proj2 (eqb_empty_false _) Hne). }
  unfold outbound_populated. split; [|split].
  - by destruct (OverwriteExisting cfg || _).
  - intros [-> | ->]; simpl; [|rewrite orb_true_r];
      (split; [done|apply Header_Get_Set_eq]).
  - intros -> Hpop. by rewrite (proj2 (eqb_empty_false _) Hpop).
Qed.

Lemma mapIncomingHeader_value cfg req md m v :
  (Header_Get (Req_Header req) (HTTPHeader m) = v ∧ v ≠ "")
  ∨ (Header_Get (Req_Header req) (HTTPHeader m) = ""
     ∧ DefaultValue m = v ∧ v ≠ "") →
  let step := mapIncomingHeader cfg req md m in
  step.2 = []
  ∧ (OverwriteExisting cfg = true ∨ MD_Get md (GRPCMetadata m) = [] →
     step.1 = MD_Set md (GRPCMetadata m) [apply_Transform m v]
     ∧ MD_Get step.1 (GRPCMetadata m) = [apply_Transform m v])
  ∧ (OverwriteExisting cfg = false → MD_Get md (GRPCMetadata m) ≠ [] →
     step.1 = md).
Proof.
  intros Hsrc step. subst step. rewrite mapIncomingHeader_semantics.
  assert (∀ p, rule_semantics (OverwriteExisting cfg) m
                 (inbound_source req m) p
               = if OverwriteExisting cfg || negb p
                 then Write (apply_Transform m v) else Reject) as ->.
  { intros p. unfold rule_semantics, inbound_source.
    destruct Hsrc as [[-> Hne]|(-> & <- & Hne)]; simpl;
      by rewrite (proj2 (eqb_empty_false _) Hne). }
  unfold inbound_populated. split; [|split].
  - by destruct (OverwriteExisting cfg || _).
  - intros [-> | ->]; simpl; [|rewrite orb_true_r];
      (split; [done|apply MD_Get_Set_eq]).
  - intros -> Hpop. by rewrite (proj2 (length_pos_nonempty _) Hpop).
Qed.

(** C6 (amended). For a mapper with a configuration, a context that carries
    server metadata and a rule that is not incoming, the response modifier
    returns the headers obtained by running the earlier rules, this rule
    and the later ones, and the rule's step depends on the metadata only
    through the first value under the rule's metadata key.  When the key
    holds values, the first one, empty or not, is transformed and written
    with [Header.Set] under the rule's HTTP header name; when it holds
    none, the default, if there is one, is transformed and written; with
    neither, the sink is left alone and a required rule warns.  A write
    takes place when overwriting is on or the header has no non-empty first
    value, and is dropped otherwise.  The inbound step has the same shape
    with two differences that the statement spells out: it counts an empty
    header value as absent (so it falls back to the default or warns where
    the outbound step writes the empty value), and it counts its
    destination as taken as soon as the key holds a value, even an empty
    one. *)
Theorem applyOutbound_first_value
    (hm : HeaderMapper) (cfg : Config) (ctx : Context) (smd : ServerMetadata)
    (w : Header) (earlier later : list HeaderMapping) (rule : HeaderMapping) :
  config hm = Some cfg →
  Mappings cfg = earlier ++ rule :: later →
  ServerMetadataFromContext ctx = Some smd →
  Direction rule ≠ Incoming →
  let md := HeaderMD smd in
  let name := HTTPHeader rule in
  let key := GRPCMetadata rule in
  let before := (outgoing_loop cfg md earlier w).1 in
  let step := mapOutgoingHeader cfg md before rule in
  let writes (v : string) : Prop :=
    step.2 = []
    ∧ (OverwriteExisting cfg = true ∨ Header_Get before name = "" →
       step.1 = Header_Set before name (apply_Transform rule v)
       ∧ Header_Get step.1 name = apply_Transform rule v)
    ∧ (OverwriteExisting cfg = false → Header_Get before name ≠ "" →
       step.1 = before) in
  (∃ t, ResponseModifier hm ctx w
        = Returned ((outgoing_loop cfg md later step.1).1, t))
  ∧ (∀ md' : MD,
       head (MD_Get md' key) = head (MD_Get md key) →
       mapOutgoingHeader cfg md' before rule = step)
  ∧ (∀ v rest, MD_Get md key = v :: rest → writes v)
  ∧ (MD_Get md key = [] → DefaultValue rule ≠ "" →
     writes (DefaultValue rule))
  ∧ (MD_Get md key = [] → DefaultValue rule = "" →
     step = (before,
             if Required rule then [missing_metadata_warning rule] else []))
  ∧ (∀ (req : Request) (md0 : MD),
       let source := Header_Get (Req_Header req) name in
       let inbound := mapIncomingHeader cfg req md0 rule in
       let inbound_writes (v : string) : Prop :=
         inbound.2 = []
         ∧ (OverwriteExisting cfg = true ∨ MD_Get md0 key = [] →
            inbound.1 = MD_Set md0 key [apply_Transform rule v]
            ∧ MD_Get inbound.1 key = [apply_Transform rule v])
         ∧ (OverwriteExisting cfg = false → MD_Get md0 key ≠ [] →
            inbound.1 = md0) in
       (source ≠ "" → inbound_writes source)
       ∧ (source = "" → DefaultValue rule ≠ "" →
          inbound_writes (DefaultValue rule))
       ∧ (source = "" → DefaultValue rule = "" →
          inbound
          = (md0,
             if Required rule then [missing_header_warning rule] else []))).
Proof.
  intros Hcfg Hms Hmd Hd md name key before step writes.
  split; [|split; [|split; [|split; [|split]]]].
  - rewrite (ResponseModifier_run hm cfg ctx smd w Hcfg Hmd), Hms.
    rewrite outgoing_loop_split by done. simpl. by eexists.
  - intros md'. apply mapOutgoingHeader_first_value.
  - intros v rest Hv. apply mapOutgoingHeader_value. left. by exists rest.
  - intros Hv Hdef. apply mapOutgoingHeader_value. by right.
  - intros Hv Hdef. subst step. rewrite mapOutgoingHeader_semantics.
    unfold rule_semantics, outbound_source. fold md key. rewrite Hv, Hdef.
    simpl. by destruct (Required rule).
  - intros req md0 source inbound inbound_writes. split; [|split].
    + intros Hsrc. apply mapIncomingHeader_value. by left.
    + intros Hsrc Hdef. apply mapIncomingHeader_value. by right.
    + intros Hsrc Hdef. by apply mapIncomingHeader_missing.
Qed.

(** ** Case of header names *)

Lemma upper_lower_byte c :
  Strings.upper_byte (Strings.lower_byte c) = Strings.upper_byte c.
Proof. by destruct c as [[] [] [] [] [] [] [] []]. Qed.

Lemma lower_lower_byte c :
  Strings.lower_byte (Strings.lower_byte c) = Strings.lower_byte c.
Proof. by destruct c as [[] [] [] [] [] [] [] []]. Qed.

Lemma valid_lower_byte c :
  Textproto.validHeaderFieldByte (Strings.lower_byte c)
  = Textproto.validHeaderFieldByte c.
Proof. by destruct c as [[] [] [] [] [] [] [] []]. Qed.

Lemma ToLower_idemp s : Strings.ToLower (Strings.ToLower s) = Strings.ToLower s.
Proof.
  induction s as [|c s IH]; [done|].
  simpl. unfold Strings.ToLower in *. simpl.
  by rewrite lower_lower_byte, IH.
Qed.

Lemma canon_ToLower upper s :
  Textproto.canon upper (Strings.ToLower s) = Textproto.canon upper s.
Proof.
  revert upper. induction s as [|c s IH]; intros upper; [done|].
  unfold Strings.ToLower in *. simpl.
  rewrite upper_lower_byte, lower_lower_byte. by rewrite IH.
Qed.

Lemma all_valid_ToLower s :
  Strings.all_bytes Textproto.validHeaderFieldByte (Strings.ToLower s)
  = Strings.all_bytes Textproto.validHeaderFieldByte s.
Proof.
  induction s as [|c s IH]; [done|].
  unfold Strings.ToLower in *. simpl. by rewrite valid_lower_byte, IH.
Qed.

(** Token names that differ only in letter case have one canonical key. *)
Lemma CanonicalMIMEHeaderKey_case name name' :
  Strings.all_bytes Textproto.validHeaderFieldByte name = true →
  Strings.ToLower name = Strings.ToLower name' →
  Textproto.CanonicalMIMEHeaderKey name
  = Textproto.CanonicalMIMEHeaderKey name'.
Proof.
  intros Hvalid Hlow. unfold Textproto.CanonicalMIMEHeaderKey.
  assert (Strings.all_bytes Textproto.validHeaderFieldByte name' = true)
    as Hvalid'.
  { by rewrite <- all_valid_ToLower, <- Hlow, all_valid_ToLower. }
  rewrite Hvalid, Hvalid'.
  by rewrite <- (canon_ToLower true name), Hlow, canon_ToLower.
Qed.

Lemma MetadataAnnotator_policy hm cfg cfg' req :
  config hm = Some cfg →
  OverwriteExisting cfg' = OverwriteExisting cfg →
  Mappings cfg' = Mappings cfg → Debug cfg' = Debug cfg →
  MetadataAnnotator (with_config cfg' hm) req = MetadataAnnotator hm req.
Proof.
  intros Hcfg How Hms Hdbg. unfold MetadataAnnotator, with_config, skipped.
  simpl. rewrite Hcfg, Hms, Hdbg.
  by rewrite (incoming_loop_policy cfg cfg' _ _ _ How).
Qed.

(** C5 (amended). The inbound lookup does not read the case policy: a step
    and the whole annotator give the same result whatever the value of
    [CaseSensitive].  The lookup goes through the canonical header key, so
    two token names that differ only in letter case read the same value of
    any header set; a header stored as ["X-User-Id"] matches a rule declared
    as ["x-user-id"] when the policy is false and also when it is true. *)
Theorem applyInbound_lookup_case_insensitive
    (hm : HeaderMapper) (cfg : Config) (policy : bool) (req : Request)
    (md : MD) (m : HeaderMapping) (h : Header) (name name' : string) :
  config hm = Some cfg →
  Strings.all_bytes Textproto.validHeaderFieldByte name = true →
  Strings.ToLower name = Strings.ToLower name' →
  mapIncomingHeader (set_CaseSensitive policy cfg) req md m
  = mapIncomingHeader cfg req md m
  ∧ MetadataAnnotator (with_config (set_CaseSensitive policy cfg) hm) req
    = MetadataAnnotator hm req
  ∧ Header_Get h name = Header_Get h name'
  ∧ (∀ caseSensitive,
       MetadataAnnotator (user_id_mapper caseSensitive) user_id_request
       = Returned ({[ "user-id" := ["42"] ]}, [])).
Proof.
  intros Hcfg Hvalid Hlow. split; [|split; [|split]].
  - by apply mapIncomingHeader_policy.
  - by apply (MetadataAnnotator_policy hm cfg).
  - unfold Header_Get.
    by rewrite (CanonicalMIMEHeaderKey_case name name' Hvalid Hlow).
  - intros []; vm_compute; reflexivity.
Qed.

(** [HeaderMatcher] is where the case policy is read: the rule declared as
    ["x-user-id"] is found for ["X-User-Id"] when the policy is false and
    is not in the table under that name when it is true. *)
Example HeaderMatcher_case_policy (D : string → string * bool) :
  HeaderMatcher D (user_id_mapper false) "X-User-Id"
  = Returned ("user-id", true)
  ∧ headerMap
      (set_CaseSensitive true (config_of [rule "x-user-id" "user-id" Incoming]))
    !! "X-User-Id" = None.
Proof. split; reflexivity. Qed.

(** ** Interceptors *)

Lemma process_loop_id ms (md : MD) : process_loop ms md = md.
Proof.
  induction ms as [|m ms IH]; [done|].
  simpl. by destruct (Direction m =? Outgoing)%Z.
Qed.

Lemma lower_keys_insert {A} (m : gmap string A) k v :
  m !! k = None → lower_keys (<[k := v]> m) →
  Strings.ToLower k = k ∧ lower_keys m.
Proof.
  intros Hfresh Hlow. split.
  - apply Hlow. rewrite lookup_insert_eq. by eexists.
  - intros k' Hk'. apply Hlow. rewrite lookup_insert_ne; [done|].
    intros <-. rewrite Hfresh in Hk'. by destruct Hk'.
Qed.

Lemma FromIncomingContext_lower_keys ctx md :
  FromIncomingContext ctx = Some md → lower_keys md.
Proof.
  unfold FromIncomingContext. destruct (ctx_incoming ctx) as [raw|]; [|done].
  intros [= <-].
  apply (map_fold_weak_ind (λ (out : MD) (_ : MD), lower_keys out)).
  - intros k [v Hk]. by rewrite lookup_empty in Hk.
  - intros i x m out _ IH k [v Hk].
    rewrite lookup_insert in Hk. case_decide as Heq.
    + rewrite <- Heq. apply ToLower_idemp.
    + apply IH. by eexists.
Qed.

Lemma FromIncomingContext_lower ctx raw :
  ctx_incoming ctx = Some raw → lower_keys raw →
  FromIncomingContext ctx = Some raw.
Proof.
  intros Hraw. unfold FromIncomingContext. rewrite Hraw. intros Hlow.
  f_equal. revert Hlow.
  apply (map_fold_weak_ind (λ (out m : MD), lower_keys m → out = m)).
  - done.
  - intros i x m out Hfresh IH Hlow.
    apply lower_keys_insert in Hlow as [-> Hlow]; [|done]. by rewrite IH.
Qed.

(** The loop [for k, v := range md { newMD.Set(k, v...) }] on a set with
    lower-case keys keeps the entries that hold a value. *)
Lemma copy_loop (md : MD) :
  lower_keys md →
  map_fold (λ k v (newMD : MD), MD_Set newMD k v) ∅ md = nonempty_values md.
Proof.
  unfold nonempty_values.
  apply (map_fold_weak_ind
           (λ (out m : MD), lower_keys m →
              out = filter (λ kv : string * list string, kv.2 ≠ []) m)).
  - intros _. by rewrite map_filter_empty.
  - intros i x m out Hfresh IH Hlow.
    apply lower_keys_insert in Hlow as [Hi Hlow]; [|done].
    rewrite (IH Hlow). unfold MD_Set. rewrite Hi. destruct x as [|v vs].
    + rewrite map_filter_insert_False by (simpl; auto).
      by rewrite delete_id.
    + by rewrite map_filter_insert_True.
Qed.

Lemma processIncomingMetadata_copy hm cfg ctx :
  config hm = Some cfg →
  processIncomingMetadata hm ctx = Returned (copy_incoming ctx).
Proof.
  intros Hcfg. unfold processIncomingMetadata, copy_incoming.
  destruct (FromIncomingContext ctx) as [md|] eqn:Hmd; [|done].
  rewrite Hcfg, process_loop_id, MD_New_empty.
  by rewrite (copy_loop md (FromIncomingContext_lower_keys ctx md Hmd)).
Qed.

(** C4 (amended). On a route in the skip set both interceptors call the
    handler with the context (the stream) they received.  On any other
    route, for a mapper with a configuration, they call the handler with
    the context whose incoming metadata, if any, is replaced by a copy with
    lower-case keys and without the entries that hold no value: a context
    without incoming metadata is passed as it is, and metadata whose keys
    are in lower case is carried over under the same keys.  No rule is
    applied to the metadata. *)
Theorem interceptors_copy_metadata {Req Resp Srv Base Err : Type}
    (hm : HeaderMapper) (cfg : Config) (info : UnaryServerInfo)
    (ctx : Context) (req : Req) (handler : Context → Req → Resp)
    (srv : Srv) (ss : ServerStream Base)
    (stream_handler : Srv → ServerStream Base → Err) :
  (skipped hm (FullMethod info) = true →
   UnaryServerInterceptor hm ctx req info handler
   = Returned (handler ctx req)
   ∧ StreamServerInterceptor hm srv ss info stream_handler
     = Returned (stream_handler srv ss))
  ∧ (skipped hm (FullMethod info) = false → config hm = Some cfg →
     UnaryServerInterceptor hm ctx req info handler
     = Returned (handler (copy_incoming ctx) req)
     ∧ StreamServerInterceptor hm srv ss info stream_handler
       = Returned
           (stream_handler srv
              (wrappedServerStream ss (copy_incoming (stream_Context ss)))))
  ∧ (ctx_incoming ctx = None → copy_incoming ctx = ctx)
  ∧ (∀ raw, ctx_incoming ctx = Some raw → lower_keys raw →
       copy_incoming ctx = NewIncomingContext ctx (nonempty_values raw)).
Proof.
  unfold UnaryServerInterceptor, StreamServerInterceptor.
  split; [|split; [|split]].
  - by intros ->.
  - intros -> Hcfg. by rewrite !(processIncomingMetadata_copy hm cfg).
  - intros Hnone. unfold copy_incoming, FromIncomingContext.
    by rewrite Hnone.
  - intros raw Hraw Hlow. unfold copy_incoming.
    by rewrite (FromIncomingContext_lower ctx raw).
Qed.

(** * The properties at concrete inputs *)

(** ** Where the code departs from a statement of the specification *)

(** Against C1 as stated: the required header is missing and there is no
    default, the annotator leaves the key unset and warns, and the failure
    counter read after the call is not the counter read before plus one. *)
Lemma GetStats_failure_counter_not_incremented :
  MetadataAnnotator required_mapper bare_request
  = Returned (∅, [LogWarn [LogStr "Required header missing:";
                           LogStr "X-Required"]])
  ∧ FailedMappings (GetStats required_mapper 1)
    ≠ (FailedMappings (GetStats required_mapper 0) + 1)%Z.
Proof. split; [reflexivity|discriminate]. Qed.

(** Against C2 as stated: the request holds the rule's header with the
    (empty) value [V], and the metadata does not hold [transform(V)] under
    the rule's key: nothing is written; nor is anything written for a
    header with a value when the path is skipped. *)
Lemma applyInbound_empty_value_not_written :
  (Req_Header empty_token_request !! "X-Token" = Some [""]
   ∧ MetadataAnnotator token_mapper empty_token_request = Returned (∅, [])
   ∧ MD_Get ∅ (GRPCMetadata token_rule) ≠ [apply_Transform token_rule ""])
  ∧ (Header_Get (Req_Header health_request) "X-User-ID" = "12345"
     ∧ MetadataAnnotator health_mapper health_request = Returned (∅, [])
     ∧ MD_Get ∅ "user-id" ≠ ["12345"]).
Proof. repeat split; (reflexivity || discriminate). Qed.

(** Against C4 as stated: on a route that is not skipped the handler sees
    the incoming metadata under the key it came with; the value is not
    under the internal name of the rule. *)
Lemma interceptor_does_not_rekey :
  skipped interceptor_mapper (FullMethod interceptor_info) = false
  ∧ UnaryServerInterceptor interceptor_mapper interceptor_ctx tt
      interceptor_info (λ ctx _, ctx_incoming ctx)
    = Returned (Some interceptor_md)
  ∧ MD_Get interceptor_md "X-User-ID" = ["12345"]
  ∧ MD_Get interceptor_md "user-id" = []
  ∧ ¬ carries_rewritten (config_of [rule "X-User-ID" "user-id" Incoming])
        interceptor_md interceptor_md.
Proof.
  repeat split; try reflexivity.
  intros Hcarries.
  specialize (Hcarries (rule "X-User-ID" "user-id" Incoming) "12345" []).
  assert (MD_Get interceptor_md "user-id" = ["12345"]) as Hget.
  { apply Hcarries; [by left|discriminate|reflexivity]. }
  discriminate Hget.
Qed.

(** Against C5 as stated: the policy is case-sensitive, the header name
    differs from the declared name only in letter case, and the rule
    matches. *)
Lemma applyInbound_matches_under_case_sensitive_policy :
  config (user_id_mapper true)
  = Some (set_CaseSensitive true
            (config_of [rule "x-user-id" "user-id" Incoming]))
  ∧ Req_Header user_id_request !! "X-User-Id" = Some ["42"]
  ∧ "X-User-Id" ≠ "x-user-id"
  ∧ Strings.ToLower "X-User-Id" = Strings.ToLower "x-user-id"
  ∧ MetadataAnnotator (user_id_mapper true) user_id_request
    = Returned ({[ "user-id" := ["42"] ]}, []).
Proof. repeat split; (reflexivity || discriminate). Qed.

(** Against C6 as stated: the outbound pass does not treat its source and
    destination as the inbound pass does.  With the source present and
    empty, the inbound pass writes the default and the outbound pass writes
    the empty value; with overwriting off and a destination that holds one
    empty value, the inbound step drops its write and the outbound step
    makes it. *)
Lemma applyOutbound_differs_on_empty_values :
  (Req_Header empty_k_request !! "X-K" = Some [""]
   ∧ MetadataAnnotator default_k_mapper empty_k_request
     = Returned ({[ "k" := ["d"] ]}, [])
   ∧ HeaderMD empty_k_metadata !! "k" = Some [""]
   ∧ ResponseModifier default_k_mapper
       {| ctx_incoming := None; ctx_server := Some empty_k_metadata |} ∅
     = Returned ({[ "X-K" := [""] ]}, [])
   ∧ Header_Get {[ "X-K" := [""] ]} "X-K" ≠ "d")
  ∧ (OverwriteExisting (config_of [default_k_rule]) = false
     ∧ mapIncomingHeader (config_of [default_k_rule])
         {| URL_Path := "/api/test"; Req_Header := {[ "X-K" := ["v"] ]} |}
         {[ "k" := [""] ]} default_k_rule
       = ({[ "k" := [""] ]}, [])
     ∧ mapOutgoingHeader (config_of [default_k_rule]) {[ "k" := ["v"] ]}
         {[ "X-K" := [""] ]} default_k_rule
       = ({[ "X-K" := ["v"] ]}, [])).
Proof. repeat split; (reflexivity || discriminate). Qed.

(** ** The theorems at work *)

Lemma applyInbound_missing_required_witness :
  config required_mapper
  = Some (config_of [set_Required true (rule "X-Required" "required" Incoming)])
  ∧ skipped required_mapper (URL_Path bare_request) = false
  ∧ Header_Get (Req_Header bare_request) "X-Required" = ""
  ∧ (∀ md : MD,
       mapIncomingHeader
         (config_of [set_Required true (rule "X-Required" "required" Incoming)])
         bare_request md
         (set_Required true (rule "X-Required" "required" Incoming))
       = (md, [LogWarn [LogStr "Required header missing:";
                        LogStr "X-Required"]])).
Proof.
  split; [reflexivity|]. split; [reflexivity|]. split; [reflexivity|].
  refine (proj1 (applyInbound_missing_required required_mapper
                   (config_of [set_Required true
                                 (rule "X-Required" "required" Incoming)])
                   bare_request [] []
                   (set_Required true (rule "X-Required" "required" Incoming))
                   _ _ _ _ _ _ _)); try reflexivity.
  discriminate.
Defined.

Lemma applyInbound_first_writer_wins_witness :
  config two_writers_mapper
  = Some (config_of [first_id_rule; second_id_rule])
  ∧ skipped two_writers_mapper (URL_Path two_ids_request) = false
  ∧ Header_Get (Req_Header two_ids_request) (HTTPHeader first_id_rule)
    = "12345"
  ∧ ∃ final t,
      MetadataAnnotator two_writers_mapper two_ids_request
      = Returned (final, t)
      ∧ MD_Get final "user-id" = ["12345"].
Proof.
  split; [reflexivity|]. split; [reflexivity|]. split; [reflexivity|].
  destruct (applyInbound_first_writer_wins two_writers_mapper
              (config_of [first_id_rule; second_id_rule]) two_ids_request
              [] [second_id_rule] first_id_rule "12345")
    as ([t Ht] & _ & Hfree & _); try reflexivity; try discriminate.
  eexists _, t. split; [exact Ht|].
  apply Hfree; reflexivity.
Defined.

Lemma MetadataAnnotator_skip_path_witness :
  URL_Path health_request
  ∈ SkipPaths (set_SkipPaths ["/health"]
                 (config_of [rule "X-User-ID" "user-id" Incoming]))
  ∧ Header_Get (Req_Header health_request) "X-User-ID" = "12345"
  ∧ MetadataAnnotator health_mapper health_request = Returned (∅, []).
Proof.
  split; [by left|]. split; [reflexivity|].
  apply (proj2 (MetadataAnnotator_skip_path health_mapper
                  (set_SkipPaths ["/health"]
                     (config_of [rule "X-User-ID" "user-id" Incoming]))
                  health_request)).
  by left.
Defined.

Lemma interceptors_copy_metadata_witness :
  skipped interceptor_mapper (FullMethod interceptor_info) = false
  ∧ lower_keys interceptor_md
  ∧ UnaryServerInterceptor interceptor_mapper interceptor_ctx tt
      interceptor_info (λ ctx _, ctx)
    = Returned (copy_incoming interceptor_ctx)
  ∧ copy_incoming interceptor_ctx
    = NewIncomingContext interceptor_ctx (nonempty_values interceptor_md).
Proof.
  assert (lower_keys interceptor_md) as Hlow.
  { intros k [v Hk]. unfold interceptor_md in Hk.
    apply lookup_singleton_Some in Hk as [<- _]. reflexivity. }
  pose proof (interceptors_copy_metadata (Resp := Context) (Err := unit)
                interceptor_mapper
                (config_of [rule "X-User-ID" "user-id" Incoming])
                interceptor_info interceptor_ctx tt (λ ctx _, ctx)
                tt {| stream_Context := interceptor_ctx; stream_base := tt |}
                (λ _ _, tt))
    as (_ & Hrun & _ & Hcopy).
  split; [reflexivity|]. split; [exact Hlow|]. split.
  - apply Hrun; reflexivity.
  - apply (Hcopy interceptor_md); [reflexivity|exact Hlow].
Defined.

Lemma applyInbound_lookup_case_insensitive_witness :
  Strings.all_bytes Textproto.validHeaderFieldByte "x-user-id" = true
  ∧ Strings.ToLower "x-user-id" = Strings.ToLower "X-User-Id"
  ∧ Header_Get (Req_Header user_id_request) "x-user-id"
    = Header_Get (Req_Header user_id_request) "X-User-Id".
Proof.
  split; [reflexivity|]. split; [reflexivity|].
  refine (proj1 (proj2 (proj2
            (applyInbound_lookup_case_insensitive (user_id_mapper true)
               (set_CaseSensitive true
                  (config_of [rule "x-user-id" "user-id" Incoming]))
               false user_id_request ∅ (rule "x-user-id" "user-id" Incoming)
               (Req_Header user_id_request) "x-user-id" "X-User-Id"
               _ _ _)))); reflexivity.
Defined.

Lemma applyOutbound_first_value_witness :
  config response_time_mapper = Some (config_of [response_time_rule])
  ∧ Direction response_time_rule ≠ Incoming
  ∧ ∃ w t,
      ResponseModifier response_time_mapper response_time_ctx ∅
      = Returned (w, t)
      ∧ Header_Get w "X-Response-Time" = "150ms".
Proof.
  split; [reflexivity|]. split; [discriminate|].
  destruct (applyOutbound_first_value response_time_mapper
              (config_of [response_time_rule]) response_time_ctx
              {| HeaderMD := {[ "response-time" := ["150ms"; "151ms"] ]};
                 TrailerMD := ∅ |}
              ∅ [] [] response_time_rule)
    as ([t Ht] & _); try reflexivity; try discriminate.
  eexists _, t. split; [exact Ht|reflexivity].
Defined.

Lemma Validate_empty_names_only_witness :
  Validate (NewHeaderMapper (Some duplicate_config)) = None
  ∧ Mappings duplicate_config !! 0 = Some (rule "X-Test" "test" Incoming)
  ∧ Mappings duplicate_config !! 1 = Some (rule "X-Test" "test" Outgoing)
  ∧ is_Some (ValidateConfig (Some duplicate_config)).
Proof.
  split; [reflexivity|]. split; [reflexivity|]. split; [reflexivity|].
  apply (proj2 (proj2 (Validate_empty_names_only
                         (NewHeaderMapper (Some duplicate_config))))
           duplicate_config 0 1 (rule "X-Test" "test" Incoming)
           (rule "X-Test" "test" Outgoing)); (lia || reflexivity).
Defined.


(** ** The package's own tests, replayed on the model *)

Example test_basic_incoming_mapping :
  MetadataAnnotator
    (Builder.Build
       (Builder.AddIncomingMapping "Authorization" "auth-token"
          (Builder.AddIncomingMapping "X-User-ID" "user-id"
             Builder.NewBuilder)))
    {| URL_Path := "/api/test";
       Req_Header :=
         Header_Set (Header_Set ∅ "X-User-ID" "12345")
                    "Authorization" "Bearer token123" |}
  = Returned ({[ "user-id" := ["12345"];
                 "auth-token" := ["Bearer token123"] ]}, []).
Proof. vm_compute. reflexivity. Qed.

Example test_default_value_used :
  MetadataAnnotator
    (Builder.Build
       (Builder.WithDefault "default-value"
          (Builder.AddIncomingMapping "X-Optional" "optional"
             Builder.NewBuilder)))
    bare_request
  = Returned ({[ "optional" := ["default-value"] ]}, []).
Proof. vm_compute. reflexivity. Qed.

Example test_transformation_applied :
  MetadataAnnotator
    (Builder.Build
       (Builder.WithTransform (Some (RemovePrefix "Bearer "))
          (Builder.AddIncomingMapping "Authorization" "auth-token"
             Builder.NewBuilder)))
    {| URL_Path := "/api/test";
       Req_Header := Header_Set ∅ "Authorization" "Bearer abc123" |}
  = Returned ({[ "auth-token" := ["abc123"] ]}, []).
Proof. vm_compute. reflexivity. Qed.

Example test_outgoing_transformation_applied :
  ResponseModifier
    (Builder.Build
       (Builder.WithTransform (Some (AddPrefix "Duration: "))
          (Builder.AddOutgoingMapping "processing-time" "X-Processing-Time"
             Builder.NewBuilder)))
    {| ctx_incoming := None;
       ctx_server :=
         Some {| HeaderMD := MD_New {[ "processing-time" := "200ms" ]};
                 TrailerMD := ∅ |} |}
    ∅
  = Returned ({[ "X-Processing-Time" := ["Duration: 200ms"] ]}, []).
Proof. vm_compute. reflexivity. Qed.

Example test_outgoing_default_value_used :
  ResponseModifier
    (Builder.Build
       (Builder.WithDefault "default-value"
          (Builder.AddOutgoingMapping "missing-header" "X-Missing"
             Builder.NewBuilder)))
    {| ctx_incoming := None;
       ctx_server := Some {| HeaderMD := MD_New ∅; TrailerMD := ∅ |} |}
    ∅
  = Returned ({[ "X-Missing" := ["default-value"] ]}, []).
Proof. vm_compute. reflexivity. Qed.

Example test_HeaderMatcher :
  let matcher :=
    HeaderMatcher (λ _, ("", false))
      (Builder.Build
         (Builder.CaseSensitive false
            (Builder.AddBidirectionalMapping "X-Request-ID" "request-id"
               (Builder.AddIncomingMapping "X-User-ID" "user-id"
                  Builder.NewBuilder)))) in
  matcher "X-User-ID" = Returned ("user-id", true)
  ∧ matcher "x-user-id" = Returned ("user-id", true)
  ∧ matcher "X-Request-ID" = Returned ("request-id", true)
  ∧ matcher "Unknown-Header"
    = Returned ("grpc-metadata-unknown-header", true).
Proof. repeat split. Qed.

Example test_Validate :
  is_Some (Validate {| config := None; skipPaths := ∅ |})
  ∧ is_Some (Validate (NewHeaderMapper (Some (config_of [rule "" "test" Incoming]))))
  ∧ is_Some (Validate (NewHeaderMapper (Some (config_of [rule "test" "" Incoming]))))
  ∧ Validate (Builder.Build
                (Builder.AddIncomingMapping "X-Test" "test" Builder.NewBuilder))
    = None.
Proof. repeat split; by eexists. Qed.

(** * Further properties of the package *)

(** ** Byte strings *)

Lemma length_append (a b : string) :
  String.length (a ++ b)%string = String.length a + String.length b.
Proof. induction a as [|c a IH]; simpl; [done|]. by rewrite IH. Qed.

Lemma take_drop_bytes n (s : string) :
  (take_bytes n s ++ drop_bytes n s)%string = s.
Proof.
  revert s. induction n as [|n IH]; intros [|c r]; simpl; try done.
  change (String c (take_bytes n r ++ drop_bytes n r)%string = String c r).
  by rewrite IH.
Qed.

Lemma length_take_bytes (n : nat) (s : string) :
  (n ≤ String.length s)%nat → String.length (take_bytes n s) = n.
Proof.
  revert s. induction n as [|n IH]; intros [|c r]; simpl; try done; [lia|].
  intros Hn. rewrite IH; [done|lia].
Qed.

Lemma length_drop_bytes n (s : string) :
  String.length (drop_bytes n s) = String.length s - n.
Proof. revert s. induction n as [|n IH]; intros [|c r]; simpl; auto. Qed.

Lemma take_bytes_all (n : nat) (s : string) :
  (String.length s ≤ n)%nat → take_bytes n s = s.
Proof.
  revert s. induction n as [|n IH]; intros [|c r]; simpl; try done; [lia|].
  intros Hn. rewrite IH; [done|lia].
Qed.

Lemma take_bytes_app (a b : string) :
  take_bytes (String.length a) (a ++ b)%string = a.
Proof. induction a as [|c a IH]; simpl; [by destruct b|]. by rewrite IH. Qed.

Lemma drop_bytes_app (a b : string) :
  drop_bytes (String.length a) (a ++ b)%string = b.
Proof. induction a as [|c a IH]; simpl; [by destruct b|done]. Qed.

Lemma length_repeat_star n : String.length (repeat_string "*" n) = n.
Proof.
  induction n as [|n IH]; [done|].
  change (repeat_string "*" (S n)) with ("*" ++ repeat_string "*" n)%string.
  by rewrite length_append, IH.
Qed.

Lemma wrap64_small (z : Z) :
  (- 2 ^ 63 ≤ z < 2 ^ 63)%Z → wrap64 z = z.
Proof. intros Hz. unfold wrap64. rewrite Z.mod_small; lia. Qed.

Lemma strip_Some p s r : Strings.strip p s = Some r ↔ s = (p ++ r)%string.
Proof.
  revert s. induction p as [|a p IH]; intros s; simpl.
  - split; [by intros [= ->]|by intros ->].
  - destruct s as [|b s]; [split; [done|discriminate]|].
    destruct (Ascii.eqb a b) eqn:Hab.
    + apply Ascii.eqb_eq in Hab as ->. rewrite IH.
      split; [by intros ->|by intros [= ->]].
    + apply Ascii.eqb_neq in Hab. split; [done|]. by intros [= <- _].
Qed.

(** ** Prefixes and suffixes *)

Lemma TrimSuffix_app (r suffix : string) :
  TrimSuffix (r ++ suffix)%string suffix = r.
Proof.
  unfold TrimSuffix. rewrite length_append.
  replace (String.length r + String.length suffix - String.length suffix)
    with (String.length r) by lia.
  rewrite drop_bytes_app, take_bytes_app, String.eqb_refl.
  by rewrite (proj2 (Nat.leb_le _ _)) by lia.
Qed.

Lemma TrimSuffix_other (s suffix : string) :
  (∀ r, s ≠ (r ++ suffix)%string) → TrimSuffix s suffix = s.
Proof.
  intros Hno. unfold TrimSuffix.
  destruct (String.length suffix <=? String.length s)%nat; [|done].
  simpl. destruct (_ =? suffix) eqn:Heq; [|done].
  apply String.eqb_eq in Heq. exfalso.
  apply (Hno (take_bytes (String.length s - String.length suffix) s)).
  pose proof (take_drop_bytes (String.length s - String.length suffix) s)
    as Hsplit.
  by rewrite Heq in Hsplit.
Qed.

(** X1. [RemovePrefix] and [RemoveSuffix] undo [AddPrefix] and [AddSuffix],
    and they return their input unchanged when it does not start (end)
    with the whole prefix (suffix). *)
Theorem Remove_prefix_suffix (affix value : string) :
  RemovePrefix affix (AddPrefix affix value) = value
  ∧ RemoveSuffix affix (AddSuffix affix value) = value
  ∧ ((∀ r, value ≠ (affix ++ r)%string) → RemovePrefix affix value = value)
  ∧ ((∀ r, value ≠ (r ++ affix)%string) → RemoveSuffix affix value = value).
Proof.
  split; [|split; [|split]].
  - apply RemovePrefix_AddPrefix.
  - apply TrimSuffix_app.
  - intros Hno. unfold RemovePrefix, Strings.TrimPrefix.
    destruct (Strings.strip affix value) as [r|] eqn:Hs; [|done].
    apply strip_Some in Hs. by destruct (Hno r).
  - apply TrimSuffix_other.
Qed.

(** ** White space *)

Lemma trim_left_empty s :
  Strings.trim_left s = "" ↔ Strings.all_bytes Strings.is_space s = true.
Proof.
  induction s as [|c s IH]; simpl; [done|].
  destruct (Strings.is_space c); simpl; [done|]. split; discriminate.
Qed.

Lemma trim_left_head s c r :
  Strings.trim_left s = String c r → Strings.is_space c = false.
Proof.
  induction s as [|a s IH]; simpl; [done|].
  destruct (Strings.is_space a) eqn:Ha; [done|]. by intros [= <- _].
Qed.

Lemma trim_right_head c r :
  Strings.is_space c = false →
  ∃ r', Strings.trim_right (String c r) = String c r'.
Proof.
  intros Hc. simpl. rewrite Hc.
  destruct (Strings.trim_right r); by eexists.
Qed.

Lemma trim_right_idemp s :
  Strings.trim_right (Strings.trim_right s) = Strings.trim_right s.
Proof.
  induction s as [|c s IH]; simpl; [done|].
  destruct (Strings.trim_right s) as [|a t] eqn:Ht.
  - destruct (Strings.is_space c) eqn:Hc; simpl; [done|]. by rewrite Hc.
  - simpl in *. by rewrite IH.
Qed.

Lemma TrimSpace_empty s :
  Strings.TrimSpace s = "" ↔ Strings.all_bytes Strings.is_space s = true.
Proof.
  rewrite <- trim_left_empty. unfold Strings.TrimSpace.
  destruct (Strings.trim_left s) as [|c r] eqn:Hs; [done|].
  destruct (trim_right_head c r (trim_left_head s c r Hs)) as [r' ->].
  split; discriminate.
Qed.

Lemma TrimSpace_idemp s :
  Strings.TrimSpace (Strings.TrimSpace s) = Strings.TrimSpace s.
Proof.
  unfold Strings.TrimSpace.
  destruct (Strings.trim_left s) as [|c r] eqn:Hs; [done|].
  pose proof (trim_left_head s c r Hs) as Hc.
  destruct (trim_right_head c r Hc) as [r' Hr]. rewrite Hr.
  assert (Strings.trim_left (String c r') = String c r') as ->.
  { simpl. by rewrite Hc. }
  by rewrite <- Hr, trim_right_idemp.
Qed.

Lemma is_space_lower_byte c :
  Strings.is_space (Strings.lower_byte c) = Strings.is_space c.
Proof. by destruct c as [[] [] [] [] [] [] [] []]. Qed.

Lemma trim_left_ToLower s :
  Strings.trim_left (Strings.ToLower s) = Strings.ToLower (Strings.trim_left s).
Proof.
  unfold Strings.ToLower. induction s as [|c s IH]; simpl; [done|].
  rewrite is_space_lower_byte. by destruct (Strings.is_space c).
Qed.

Lemma trim_right_ToLower s :
  Strings.trim_right (Strings.ToLower s)
  = Strings.ToLower (Strings.trim_right s).
Proof.
  unfold Strings.ToLower. induction s as [|c s IH]; simpl; [done|].
  rewrite IH, is_space_lower_byte.
  destruct (Strings.trim_right s); simpl; [|done].
  by destruct (Strings.is_space c).
Qed.

Lemma all_bytes_trim_left p s :
  Strings.all_bytes p s = true →
  Strings.all_bytes p (Strings.trim_left s) = true.
Proof.
  induction s as [|c s IH]; simpl; [done|].
  intros [Hc Hs]%andb_prop. destruct (Strings.is_space c); [by apply IH|].
  simpl. by rewrite Hc, Hs.
Qed.

Lemma all_bytes_trim_right p s :
  Strings.all_bytes p s = true →
  Strings.all_bytes p (Strings.trim_right s) = true.
Proof.
  induction s as [|c s IH]; simpl; [done|].
  intros [Hc Hs]%andb_prop. specialize (IH Hs).
  destruct (Strings.trim_right s) as [|a t].
  - destruct (Strings.is_space c); simpl; [done|]. by rewrite Hc.
  - simpl in *. by rewrite Hc, IH.
Qed.

Lemma ascii_lower_byte c :
  (N_of_ascii (Strings.lower_byte c) <? 128)%N = (N_of_ascii c <? 128)%N.
Proof. by destruct c as [[] [] [] [] [] [] [] []]. Qed.

Lemma ascii_only_Normalize value :
  ascii_only value → ascii_only (Normalize value).
Proof.
  unfold ascii_only, Normalize, Strings.TrimSpace. intros Hv.
  apply all_bytes_trim_left, all_bytes_trim_right in Hv. revert Hv.
  generalize (Strings.trim_right (Strings.trim_left value)). intros s.
  unfold Strings.ToLower. induction s as [|c s IH]; simpl; [done|].
  intros [Hc Hs]%andb_prop. by rewrite ascii_lower_byte, Hc, IH.
Qed.

(** X2. On ASCII values [Normalize] is idempotent: the normalized value is
    again an ASCII value and [Normalize] leaves it as it is. *)
Theorem Normalize_idempotent (value : string) :
  ascii_only value →
  ascii_only (Normalize value)
  ∧ Normalize (Normalize value) = Normalize value.
Proof.
  intros Hascii. split; [by apply ascii_only_Normalize|].
  unfold Normalize, Strings.TrimSpace.
  rewrite trim_left_ToLower, trim_right_ToLower, ToLower_idemp.
  f_equal. apply TrimSpace_idemp.
Qed.

(** X3. On an ASCII value [DefaultIfEmpty] returns the default exactly when
    the value is made of white space only (the empty value included), and
    the value unchanged, with its surrounding white space, otherwise. *)
Theorem DefaultIfEmpty_white_space (defaultValue value : string) :
  ascii_only value →
  DefaultIfEmpty defaultValue value
  = if Strings.all_bytes Strings.is_space value then defaultValue else value.
Proof.
  intros _. unfold DefaultIfEmpty.
  destruct (Strings.all_bytes Strings.is_space value) eqn:Hall.
  - apply TrimSpace_empty in Hall. by rewrite Hall.
  - destruct (Strings.TrimSpace value =? "") eqn:Hemp; [|done].
    apply String.eqb_eq, TrimSpace_empty in Hemp. congruence.
Qed.

(** X4. For an ASCII token, [ExtractBearerToken] applied to ["Bearer "]
    followed by the token returns the token without its surrounding white
    space, so a token added with [AddPrefix("Bearer ")] comes back exactly
    when it has no surrounding white space.  A value (of any bytes) that
    does not start with ["Bearer "], also one with a lower-case scheme or
    with leading white space, is returned unchanged and untrimmed. *)
Theorem ExtractBearerToken_scheme (value token : string) :
  (ascii_only token →
   ExtractBearerToken (AddPrefix "Bearer " token) = Strings.TrimSpace token
   ∧ (Strings.TrimSpace token = token →
      ExtractBearerToken (AddPrefix "Bearer " token) = token))
  ∧ ((∀ r, value ≠ ("Bearer " ++ r)%string) →
     ExtractBearerToken value = value).
Proof.
  assert (ExtractBearerToken (AddPrefix "Bearer " token)
          = Strings.TrimSpace token) as Hrest.
  { unfold ExtractBearerToken, AddPrefix. by rewrite strip_app. }
  split; [intros _; split; [done|intros Ht; by rewrite Hrest]|].
  intros Hno. unfold ExtractBearerToken.
  destruct (Strings.strip "Bearer " value) as [r|] eqn:Hs; [|done].
  apply strip_Some in Hs. by destruct (Hno r).
Qed.

(** ** Masking and truncation *)

(** X5. For [0 <= showChars < 2^62] [MaskSensitive] returns a value of the
    length of its input: all stars when the input is at most
    [2 * showChars] bytes long, else the first and the last [showChars]
    bytes of the input around [len - 2 * showChars] stars. *)
Theorem MaskSensitive_keeps_length (showChars : Z) (value : string) :
  (0 ≤ showChars < 2 ^ 62)%Z → (len value < 2 ^ 63)%Z →
  let k := Z.to_nat showChars in
  let n := String.length value in
  ∃ masked,
    MaskSensitive showChars value = Returned masked
    ∧ String.length masked = n
    ∧ masked
      = if (n <=? 2 * k)%nat then repeat_string "*" n
        else (take_bytes k value ++ repeat_string "*" (n - 2 * k)
              ++ drop_bytes (n - k) value)%string.
Proof.
  intros Hk Hlen k n. unfold MaskSensitive, len in *. fold n in Hlen |- *.
  rewrite (wrap64_small (showChars * 2)) by lia.
  destruct (Z.leb_spec (Z.of_nat n) (showChars * 2)) as [Hle|Hgt].
  - assert ((n <=? 2 * k)%nat = true) as -> by (apply Nat.leb_le; lia).
    unfold Repeat. assert ((Z.of_nat n <? 0)%Z = false) as -> by lia.
    rewrite Nat2Z.id. eexists. split; [done|].
    by rewrite length_repeat_star.
  - assert ((n <=? 2 * k)%nat = false) as -> by (apply Nat.leb_gt; lia).
    rewrite !wrap64_small by lia.
    unfold slice_to, slice_from, Repeat, len. fold n.
    assert ((0 <=? showChars)%Z && (showChars <=? Z.of_nat n)%Z = true)
      as -> by lia.
    assert ((Z.of_nat n - showChars * 2 <? 0)%Z = false) as -> by lia.
    assert ((0 <=? Z.of_nat n - showChars)%Z
            && (Z.of_nat n - showChars <=? Z.of_nat n)%Z = true) as -> by lia.
    replace (Z.to_nat (Z.of_nat n - showChars * 2)) with (n - 2 * k) by lia.
    replace (Z.to_nat (Z.of_nat n - showChars)) with (n - k) by lia.
    eexists. split; [done|]. split; [|done].
    rewrite !length_append, length_repeat_star, length_drop_bytes.
    rewrite length_take_bytes by (fold n; lia). fold n. lia.
Qed.

(** X6. For a negative [showChars] (down to [-2^62]) [MaskSensitive] panics
    on every value: the length test fails and the slice [value[:showChars]]
    is out of range. *)
Theorem MaskSensitive_negative_panics (showChars : Z) (value : string) :
  (- 2 ^ 62 ≤ showChars < 0)%Z →
  MaskSensitive showChars value = Panicked.
Proof.
  intros Hk. unfold MaskSensitive, len.
  rewrite (wrap64_small (showChars * 2)) by lia.
  set (n := String.length value).
  assert ((Z.of_nat n <=? showChars * 2)%Z = false) as -> by lia.
  unfold slice_to. by assert ((0 <=? showChars)%Z = false) as -> by lia.
Qed.

(** X7. For [maxLength >= 0] [Truncate] returns the first [maxLength] bytes
    of the value (the whole value if it is shorter): a prefix of the value
    of length [min(len, maxLength)], which [Truncate] then leaves
    unchanged.  For a negative [maxLength] it panics on every value. *)
Theorem Truncate_prefix (maxLength : Z) (value : string) :
  ((0 ≤ maxLength)%Z →
   let r := take_bytes (Z.to_nat maxLength) value in
   Truncate maxLength value = Returned r
   ∧ (∃ rest, value = (r ++ rest)%string)
   ∧ String.length r = Nat.min (String.length value) (Z.to_nat maxLength)
   ∧ Truncate maxLength r = Returned r)
  ∧ ((maxLength < 0)%Z → Truncate maxLength value = Panicked).
Proof.
  set (n := String.length value). split.
  - intros Hmax r.
    assert (Truncate maxLength value = Returned r) as Hrun.
    { unfold Truncate, len. fold n.
      destruct (Z.leb_spec (Z.of_nat n) maxLength).
      - subst r. rewrite take_bytes_all; [done|]. fold n. lia.
      - unfold slice_to, len. fold n.
        by assert ((0 <=? maxLength)%Z && (maxLength <=? Z.of_nat n)%Z = true)
          as -> by lia. }
    assert (String.length r = Nat.min n (Z.to_nat maxLength)) as Hlen.
    { subst r. destruct (Nat.le_gt_cases n (Z.to_nat maxLength)).
      - rewrite take_bytes_all by done. fold n. lia.
      - rewrite length_take_bytes; [lia|]. fold n. lia. }
    split; [done|]. split; [|split; [done|]].
    + exists (drop_bytes (Z.to_nat maxLength) value).
      subst r. by rewrite take_drop_bytes.
    + unfold Truncate, len. rewrite Hlen.
      assert ((Z.of_nat (n `min` Z.to_nat maxLength) <=? maxLength)%Z = true)
        as Hle by (apply Z.leb_le; lia).
      by rewrite Hle.
  - intros Hneg. unfold Truncate, len, slice_to. fold n.
    assert ((Z.of_nat n <=? maxLength)%Z = false) as -> by lia.
    by assert ((0 <=? maxLength)%Z = false) as -> by lia.
Qed.

(** ** The inbound pass: what ends up in the metadata *)

Lemma mapIncomingHeader_effective cfg req md m :
  (mapIncomingHeader cfg req md m).1
  = if (effective_value req m =? "")
       || (negb (OverwriteExisting cfg)
           && (0 <? length (MD_Get md (GRPCMetadata m)))%nat)
    then md
    else MD_Set md (GRPCMetadata m)
           [apply_Transform m (effective_value req m)].
Proof.
  unfold mapIncomingHeader, effective_value.
  destruct (Header_Get (Req_Header req) (HTTPHeader m) =? "") eqn:Hv;
    destruct (DefaultValue m =? "") eqn:Hd; simpl;
    rewrite ?Hv, ?Hd; simpl;
    destruct (Required m), (OverwriteExisting cfg),
      (0 <? length (MD_Get md (GRPCMetadata m)))%nat; done.
Qed.



Lemma incoming_loop_rule_entries cfg req rules ms md :
  (∀ m, m ∈ ms → m ∈ rules) → rule_entries rules md →
  rule_entries rules (incoming_loop cfg req ms md).1.
Proof.
  revert md. induction ms as [|m ms IH]; intros md Hsub Hmd; [done|].
  assert (∀ md', rule_entries rules md' →
                 rule_entries rules (incoming_loop cfg req ms md').1) as IH'.
  { intros md'. apply IH. intros m' Hm'. apply Hsub. by right. }
  simpl. destruct (Direction m =? Outgoing)%Z eqn:Hd; [by apply IH'|].
  apply Z.eqb_neq in Hd.
  assert (rule_entries rules (mapIncomingHeader cfg req md m).1) as Hs.
  { rewrite mapIncomingHeader_effective. case_match; [done|].
    intros k vs. unfold MD_Set. rewrite lookup_insert.
    case_decide as Hk; [|by apply Hmd].
    intros [= <-]. split; [by eexists|].
    exists m. split; [apply Hsub; by left|done]. }
  destruct (mapIncomingHeader cfg req md m) as [md1 t1]; simpl in Hs.
  specialize (IH' md1 Hs). by destruct (incoming_loop cfg req ms md1).
Qed.

(** X9. The metadata returned by the annotator are single-valued and hold
    nothing but rule keys: every entry holds exactly one value and its key
    is the lower-cased gRPC metadata name of a rule of the configuration
    that is not outgoing. *)
Theorem MetadataAnnotator_entries
    (hm : HeaderMapper) (req : Request) (md : MD) (t : Trace)
    (k : string) (vs : list string) :
  MetadataAnnotator hm req = Returned (md, t) →
  md !! k = Some vs →
  (∃ v, vs = [v])
  ∧ ∃ cfg m, config hm = Some cfg ∧ m ∈ Mappings cfg
             ∧ Direction m ≠ Outgoing
             ∧ k = Strings.ToLower (GRPCMetadata m).
Proof.
  unfold MetadataAnnotator. rewrite MD_New_empty.
  destruct (skipped hm (URL_Path req)).
  { intros [= <- _]. by rewrite lookup_empty. }
  destruct (config hm) as [cfg|]; [|done].
  pose proof (incoming_loop_rule_entries cfg req (Mappings cfg) (Mappings cfg)
                ∅ (λ _ H, H)) as Hshape.
  destruct (incoming_loop cfg req (Mappings cfg) ∅) as [md' t'].
  intros [= <- _] Hk.
  assert (rule_entries (Mappings cfg) ∅) as Hempty.
  { intros k0 vs0 H0. by rewrite lookup_empty in H0. }
  destruct (Hshape Hempty k vs Hk) as [Hone (m & Hm & Hd & Hkey)].
  split; [done|]. by exists cfg, m.
Qed.

(** X10. The annotator reads the request only through its path and the
    headers named by the rules that are not outgoing: two requests with the
    same path that agree on those headers get the same metadata and the
    same logger calls. *)
Theorem MetadataAnnotator_reads_rule_headers
    (hm : HeaderMapper) (cfg : Config) (req req' : Request) :
  config hm = Some cfg →
  URL_Path req = URL_Path req' →
  (∀ m, m ∈ Mappings cfg → Direction m ≠ Outgoing →
        Header_Get (Req_Header req) (HTTPHeader m)
        = Header_Get (Req_Header req') (HTTPHeader m)) →
  MetadataAnnotator hm req = MetadataAnnotator hm req'.
Proof.
  intros Hcfg Hpath Hsame. unfold MetadataAnnotator.
  rewrite Hpath, Hcfg.
  assert (∀ ms md, (∀ m, m ∈ ms → m ∈ Mappings cfg) →
            incoming_loop cfg req ms md = incoming_loop cfg req' ms md)
    as Hloop.
  { induction ms as [|m ms IH]; intros md Hsub; [done|]. simpl.
    assert (∀ md', incoming_loop cfg req ms md'
                   = incoming_loop cfg req' ms md') as IH'.
    { intros md'. apply IH. intros m' Hm'. apply Hsub. by right. }
    destruct (Direction m =? Outgoing)%Z eqn:Hd; [apply IH'|].
    apply Z.eqb_neq in Hd.
    assert (mapIncomingHeader cfg req md m = mapIncomingHeader cfg req' md m)
      as ->.
    { unfold mapIncomingHeader. rewrite (Hsame m); [done| |done].
      apply Hsub. by left. }
    destruct (mapIncomingHeader cfg req' md m). by rewrite IH'. }
  by rewrite Hloop.
Qed.

(** ** Directions *)

Lemma mapOutgoingHeader_policy cfg cfg' md w m :
  OverwriteExisting cfg' = OverwriteExisting cfg →
  mapOutgoingHeader cfg' md w m = mapOutgoingHeader cfg md w m.
Proof. intros H. unfold mapOutgoingHeader. by rewrite H. Qed.

Lemma outgoing_loop_policy cfg cfg' md ms w :
  OverwriteExisting cfg' = OverwriteExisting cfg →
  outgoing_loop cfg' md ms w = outgoing_loop cfg md ms w.
Proof.
  intros H. revert w. induction ms as [|m ms IH]; intros w; [done|].
  simpl. rewrite (mapOutgoingHeader_policy cfg cfg' md w m H).
  destruct (Direction m =? Incoming)%Z; [apply IH|].
  destruct (mapOutgoingHeader cfg md w m) as [w1 t1]. by rewrite IH.
Qed.

(** X11. A rule whose direction is neither [Incoming] nor [Outgoing]
    ([Bidirectional], or any other number) can be replaced, where it
    stands, by its incoming copy followed by its outgoing copy: the
    annotator and the response modifier return the same results. *)
Theorem Bidirectional_is_pair
    (hm : HeaderMapper) (cfg : Config) (req : Request) (ctx : Context)
    (w : Header) (earlier later : list HeaderMapping) (m : HeaderMapping)
    (d : MappingDirection) :
  d ≠ Incoming → d ≠ Outgoing →
  let one :=
    with_config
      (set_Mappings (earlier ++ set_Direction d m :: later) cfg) hm in
  let two :=
    with_config
      (set_Mappings (earlier ++ set_Direction Incoming m
                             :: set_Direction Outgoing m :: later) cfg) hm in
  MetadataAnnotator one req = MetadataAnnotator two req
  ∧ ResponseModifier one ctx w = ResponseModifier two ctx w.
Proof.
  intros Hin Hout one two. split.
  - unfold MetadataAnnotator, one, two, with_config, skipped. simpl.
    rewrite !(incoming_loop_policy cfg (set_Mappings _ cfg)) by done.
    rewrite !incoming_loop_app. simpl.
    by rewrite (proj2 (Z.eqb_neq d Outgoing) Hout).
  - unfold ResponseModifier, one, two, with_config. simpl.
    destruct (ServerMetadataFromContext ctx) as [smd|]; [|done].
    rewrite !(outgoing_loop_policy cfg (set_Mappings _ cfg)) by done.
    rewrite !outgoing_loop_app. simpl.
    by rewrite (proj2 (Z.eqb_neq d Incoming) Hin).
Qed.

(** ** What the passes log *)


Lemma outgoing_loop_trace cfg md ms w :
  (outgoing_loop cfg md ms w).2
  = map missing_metadata_warning
        (List.filter (missing_required_metadata md) ms).
Proof.
  revert w. induction ms as [|m ms IH]; intros w; [done|].
  simpl. unfold missing_required_metadata at 1.
  destruct (Direction m =? Incoming)%Z; simpl; [apply IH|].
  assert ((mapOutgoingHeader cfg md w m).2
          = if Required m
               && (length (MD_Get md (GRPCMetadata m)) =? 0)%nat
               && (DefaultValue m =? "")
            then [missing_metadata_warning m] else []) as Hstep.
  { unfold mapOutgoingHeader, missing_metadata_warning.
    destruct (length (MD_Get md (GRPCMetadata m)) =? 0)%nat;
      destruct (DefaultValue m =? ""); simpl;
      destruct (Required m), (OverwriteExisting cfg),
        (Header_Get w (HTTPHeader m) =? ""); done. }
  destruct (mapOutgoingHeader cfg md w m) as [w1 t1]; simpl in Hstep.
  specialize (IH w1). destruct (outgoing_loop cfg md ms w1); simpl in *.
  rewrite Hstep, IH. by case_match.
Qed.


(** ** The outbound pass, header by header *)

Lemma outgoing_step_lookup cfg md (w : Header) m k :
  (mapOutgoingHeader cfg md w m).1 !! k = key_step cfg md k (w !! k) m.
Proof.
  rewrite mapOutgoingHeader_semantics.
  unfold key_step, outbound_populated, Header_Get, Header_Set, first_value.
  case_decide as Hk.
  - subst k. case_match; simpl; try done. by rewrite lookup_insert_eq.
  - case_match; simpl; try done. by rewrite lookup_insert_ne.
Qed.

Lemma outgoing_loop_lookup cfg md ms (w : Header) k :
  (outgoing_loop cfg md ms w).1 !! k = key_loop cfg md k ms (w !! k).
Proof.
  revert w. induction ms as [|m ms IH]; intros w; [done|].
  simpl. destruct (Direction m =? Incoming)%Z; [apply IH|].
  rewrite <- outgoing_step_lookup.
  destruct (mapOutgoingHeader cfg md w m) as [w1 t1]; simpl.
  specialize (IH w1). by destruct (outgoing_loop cfg md ms w1).
Qed.

(** A step either leaves every entry alone or offers one fixed value, which
    it writes when overwriting is on or the entry has no first value. *)
Lemma key_step_spec cfg md k m :
  ∃ offer : option string,
    (offer = None ∨ Textproto.CanonicalMIMEHeaderKey (HTTPHeader m) = k)
    ∧ ∀ entry,
        key_step cfg md k entry m
        = match offer with
          | None => entry
          | Some v =>
              if OverwriteExisting cfg || (first_value entry =? "")
              then Some [v] else entry
          end.
Proof.
  unfold key_step, rule_semantics.
  case_decide as Hk; [|exists None; by split; [left|]].
  destruct (outbound_source md m) as [x|].
  - exists (Some (apply_Transform m x)). split; [by right|].
    intros entry. rewrite negb_involutive.
    by destruct (OverwriteExisting cfg || (first_value entry =? "")).
  - destruct (DefaultValue m =? "").
    + exists None. split; [by left|]. intros entry.
      by destruct (Required m).
    + exists (Some (apply_Transform m (DefaultValue m))).
      split; [by right|]. intros entry. rewrite negb_involutive.
      by destruct (OverwriteExisting cfg || (first_value entry =? "")).
Qed.

Lemma key_loop_populated cfg md k ms entry :
  OverwriteExisting cfg = false → first_value entry ≠ "" →
  key_loop cfg md k ms entry = entry.
Proof.
  intros How Hpop. induction ms as [|m ms IH]; [done|].
  simpl. destruct (Direction m =? Incoming)%Z; [done|].
  destruct (key_step_spec cfg md k m) as (offer & _ & ->).
  apply eqb_empty_false in Hpop.
  destruct offer; rewrite ?How, ?Hpop; simpl; apply IH.
Qed.

Lemma key_loop_idemp cfg md k ms entry :
  key_loop cfg md k ms (key_loop cfg md k ms entry)
  = key_loop cfg md k ms entry.
Proof.
  revert entry. induction ms as [|m ms IH]; intros entry; [done|].
  simpl. destruct (Direction m =? Incoming)%Z; [apply IH|].
  destruct (key_step_spec cfg md k m) as (offer & _ & Hstep).
  rewrite !Hstep. destruct offer as [v|]; [|apply IH].
  destruct (OverwriteExisting cfg) eqn:How; simpl; [done|].
  destruct (first_value entry =? "") eqn:He.
  - destruct (first_value (key_loop cfg md k ms (Some [v])) =? "") eqn:Ht;
      [done|].
    apply eqb_empty_false in Ht. by apply key_loop_populated.
  - apply eqb_empty_false in He.
    rewrite (key_loop_populated cfg md k ms entry How He).
    rewrite (proj2 (eqb_empty_false _) He).
    by apply key_loop_populated.
Qed.

Lemma key_loop_origin cfg md k ms entry :
  key_loop cfg md k ms entry = entry
  ∨ ∃ m v, m ∈ ms ∧ Direction m ≠ Incoming
           ∧ Textproto.CanonicalMIMEHeaderKey (HTTPHeader m) = k
           ∧ key_loop cfg md k ms entry = Some [v].
Proof.
  revert entry. induction ms as [|m ms IH]; intros entry; [by left|].
  assert (∀ e, key_loop cfg md k ms e = e
               ∨ ∃ m' v, m' ∈ m :: ms ∧ Direction m' ≠ Incoming
                   ∧ Textproto.CanonicalMIMEHeaderKey (HTTPHeader m') = k
                   ∧ key_loop cfg md k ms e = Some [v]) as IH'.
  { intros e. destruct (IH e) as [?|(m' & v & ? & ?)]; [by left|].
    right. exists m', v. split; [by right|done]. }
  simpl. destruct (Direction m =? Incoming)%Z eqn:Hd; [apply IH'|].
  apply Z.eqb_neq in Hd.
  destruct (key_step_spec cfg md k m) as (offer & Hkey & Hstep).
  rewrite Hstep. destruct offer as [v|]; [|apply IH'].
  destruct Hkey as [|Hkey]; [done|].
  destruct (OverwriteExisting cfg || (first_value entry =? ""));
    [|apply IH'].
  destruct (IH' (Some [v])) as [->|?]; [|by right].
  right. exists m, v. split; [by left|done].
Qed.

(** X13. The response modifier touches only the headers of its rules: every
    entry of the header sink either is as it was, or sits under the
    canonical name of a rule that is not incoming and holds exactly one
    value. *)
Theorem ResponseModifier_frame
    (hm : HeaderMapper) (cfg : Config) (ctx : Context) (w w' : Header)
    (t : Trace) (k : string) :
  config hm = Some cfg →
  ResponseModifier hm ctx w = Returned (w', t) →
  w' !! k = w !! k
  ∨ ∃ m v, m ∈ Mappings cfg ∧ Direction m ≠ Incoming
           ∧ Textproto.CanonicalMIMEHeaderKey (HTTPHeader m) = k
           ∧ w' !! k = Some [v].
Proof.
  intros Hcfg. unfold ResponseModifier. rewrite Hcfg.
  destruct (ServerMetadataFromContext ctx) as [smd|];
    [|intros [= <- _]; by left].
  pose proof (outgoing_loop_lookup cfg (HeaderMD smd) (Mappings cfg) w k)
    as Hlook.
  destruct (outgoing_loop cfg (HeaderMD smd) (Mappings cfg) w) as [w1 t1].
  intros [= <- _]. simpl in Hlook. rewrite Hlook.
  apply key_loop_origin.
Qed.

(** X14. The response modifier is idempotent on the header sink: run again
    on the headers it returned, with the same context, it returns the same
    headers and makes the same logger calls, under either overwrite
    policy. *)
Theorem ResponseModifier_idempotent
    (hm : HeaderMapper) (ctx : Context) (w w' : Header) (t : Trace) :
  ResponseModifier hm ctx w = Returned (w', t) →
  ResponseModifier hm ctx w' = Returned (w', t).
Proof.
  unfold ResponseModifier.
  destruct (ServerMetadataFromContext ctx) as [smd|];
    [|by intros [= <- <-]].
  destruct (config hm) as [cfg|]; [|done].
  pose proof (outgoing_loop_trace cfg (HeaderMD smd) (Mappings cfg) w)
    as Ht1.
  pose proof (λ k, outgoing_loop_lookup cfg (HeaderMD smd) (Mappings cfg) w k)
    as Hl1.
  destruct (outgoing_loop cfg (HeaderMD smd) (Mappings cfg) w) as [w1 t1].
  intros [= <- <-]. simpl in *.
  pose proof (outgoing_loop_trace cfg (HeaderMD smd) (Mappings cfg) w1)
    as Ht2.
  pose proof (λ k, outgoing_loop_lookup cfg (HeaderMD smd) (Mappings cfg) w1 k)
    as Hl2.
  destruct (outgoing_loop cfg (HeaderMD smd) (Mappings cfg) w1) as [w2 t2].
  simpl in *. rewrite Ht2, <- Ht1.
  assert (w2 = w1) as ->; [|done].
  apply map_eq. intros k. by rewrite Hl2, Hl1, key_loop_idemp.
Qed.


(** ** [HeaderMatcher] *)

Lemma headerMap_fold cfg :
  headerMap cfg = fold_left (headerMap_step cfg) (Mappings cfg) ∅.
Proof. reflexivity. Qed.

Lemma headerMap_fold_other cfg ms acc key :
  (∀ m, m ∈ ms → Direction m ≠ Outgoing →
        policy_key cfg (HTTPHeader m) ≠ key) →
  fold_left (headerMap_step cfg) ms acc !! key = acc !! key.
Proof.
  revert acc. induction ms as [|m ms IH]; intros acc Hother; [done|].
  simpl. rewrite IH by (intros m' Hm'; apply Hother; by right).
  unfold headerMap_step.
  destruct (Direction m =? Outgoing)%Z eqn:Hd; [done|]. simpl.
  apply Z.eqb_neq in Hd. rewrite lookup_insert_ne; [done|].
  apply Hother; [by left|done].
Qed.

Lemma headerMap_fold_Some cfg ms acc key g :
  fold_left (headerMap_step cfg) ms acc !! key = Some g →
  acc !! key = Some g
  ∨ ∃ m, m ∈ ms ∧ Direction m ≠ Outgoing
         ∧ policy_key cfg (HTTPHeader m) = key ∧ g = GRPCMetadata m.
Proof.
  revert acc. induction ms as [|m ms IH]; intros acc; [by left|].
  simpl. intros Hlook. destruct (IH _ Hlook) as [Hacc|(m' & Hm' & Hrest)].
  - unfold headerMap_step in Hacc.
    destruct (Direction m =? Outgoing)%Z eqn:Hd; [by left|]. simpl in Hacc.
    apply Z.eqb_neq in Hd. rewrite lookup_insert in Hacc.
    case_decide as Hk; [|by left].
    injection Hacc as <-. right. exists m. split; [by left|done].
  - right. exists m'. split; [by right|done].
Qed.

Lemma headerMap_fold_None cfg ms acc key :
  fold_left (headerMap_step cfg) ms acc !! key = None →
  ∀ m, m ∈ ms → Direction m ≠ Outgoing →
       policy_key cfg (HTTPHeader m) ≠ key.
Proof.
  revert acc. induction ms as [|m ms IH]; intros acc Hnone m' Hm' Hd Hkey.
  { by apply elem_of_nil in Hm'. }
  simpl in Hnone. apply elem_of_cons in Hm' as [->|Hm'].
  - rewrite headerMap_fold_other in Hnone.
    + unfold headerMap_step in Hnone. apply Z.eqb_neq in Hd.
      rewrite Hd in Hnone. simpl in Hnone.
      by rewrite Hkey, lookup_insert_eq in Hnone.
    + intros m0 Hm0 Hd0 Hk0. by apply (IH _ Hnone m0).
  - by apply (IH _ Hnone m').
Qed.

(** X16. For a mapper with a configuration [HeaderMatcher] accepts every
    header name (its second result is always true).  The metadata key it
    returns is the gRPC metadata name of a rule that is not outgoing and
    whose HTTP header name equals the given name (after lower-casing both,
    unless the configuration is case-sensitive); when there is no such
    rule, the key comes from the fallback and is not empty. *)
Theorem HeaderMatcher_accepts_every_header
    (D : string → string * bool) (hm : HeaderMapper) (cfg : Config)
    (key : string) :
  config hm = Some cfg →
  ∃ grpcKey,
    HeaderMatcher D hm key = Returned (grpcKey, true)
    ∧ ((∃ m, m ∈ Mappings cfg ∧ Direction m ≠ Outgoing
             ∧ policy_key cfg (HTTPHeader m) = policy_key cfg key
             ∧ grpcKey = GRPCMetadata m)
       ∨ ((∀ m, m ∈ Mappings cfg → Direction m ≠ Outgoing →
                policy_key cfg (HTTPHeader m) ≠ policy_key cfg key)
          ∧ grpcKey ≠ "")).
Proof.
  intros Hcfg. unfold HeaderMatcher. rewrite Hcfg.
  fold (policy_key cfg key). rewrite headerMap_fold.
  destruct (fold_left (headerMap_step cfg) (Mappings cfg) ∅
              !! policy_key cfg key) as [g|] eqn:Hlook.
  - exists g. split; [done|]. left.
    apply headerMap_fold_Some in Hlook as [Hemp|?]; [|done].
    by rewrite lookup_empty in Hemp.
  - destruct (D key) as [defaultKey defaultExists].
    eexists. split; [done|]. right.
    split; [by apply (headerMap_fold_None cfg _ ∅)|].
    destruct (negb defaultExists || (defaultKey =? "")) eqn:Hd; [done|].
    apply orb_false_elim in Hd as [_ Hd]. by apply eqb_empty_false.
Qed.

(** X17. In [HeaderMatcher] the last rule for a name wins: a name equal to
    the HTTP header name of a rule that is not outgoing (after lower-casing
    both, unless the configuration is case-sensitive) is mapped to that
    rule's gRPC metadata name when no later rule that is not outgoing has
    the same name. *)
Theorem HeaderMatcher_last_rule_wins
    (D : string → string * bool) (hm : HeaderMapper) (cfg : Config)
    (earlier later : list HeaderMapping) (rule : HeaderMapping)
    (key : string) :
  config hm = Some cfg →
  Mappings cfg = earlier ++ rule :: later →
  Direction rule ≠ Outgoing →
  (∀ m, m ∈ later → Direction m ≠ Outgoing →
        policy_key cfg (HTTPHeader m) ≠ policy_key cfg (HTTPHeader rule)) →
  policy_key cfg key = policy_key cfg (HTTPHeader rule) →
  HeaderMatcher D hm key = Returned (GRPCMetadata rule, true).
Proof.
  intros Hcfg Hms Hd Hlater Hkey. unfold HeaderMatcher. rewrite Hcfg.
  fold (policy_key cfg key). rewrite headerMap_fold, Hms, Hkey.
  rewrite fold_left_app. simpl.
  rewrite headerMap_fold_other by done.
  unfold headerMap_step at 1. apply Z.eqb_neq in Hd. rewrite Hd. simpl.
  by rewrite lookup_insert_eq.
Qed.

(** ** Nil configurations *)

(** X18. Nil configurations.  [NewHeaderMapper] of a nil configuration
    gives a mapper without rules and skip paths: its annotator returns
    empty metadata and its response modifier the header sink it was given,
    with no logger call, and [Validate] accepts it.  A mapper whose
    configuration is nil panics in the annotator exactly on the paths that
    are not skipped, in the response modifier exactly when the context
    carries server metadata, in the interceptors' pass exactly when it
    carries incoming metadata, and in [HeaderMatcher] always; [Validate]
    reports it. *)
Theorem nil_configuration_panics
    (D : string → string * bool) (skip : gmap string bool) (req : Request)
    (ctx : Context) (w : Header) (key : string) :
  let built := NewHeaderMapper None in
  let bare := {| config := None; skipPaths := skip |} in
  (MetadataAnnotator built req = Returned (∅, [])
   ∧ ResponseModifier built ctx w = Returned (w, [])
   ∧ Validate built = None)
  ∧ (MetadataAnnotator bare req = Panicked ↔
       skipped bare (URL_Path req) = false)
  ∧ (ResponseModifier bare ctx w = Panicked ↔
       is_Some (ServerMetadataFromContext ctx))
  ∧ (processIncomingMetadata bare ctx = Panicked ↔
       is_Some (ctx_incoming ctx))
  ∧ HeaderMatcher D bare key = Panicked
  ∧ Validate bare = Some ErrConfigurationNil.
Proof.
  intros built bare. split; [|split; [|split; [|split; [|split]]]].
  - split; [|split; [|done]].
    + unfold MetadataAnnotator. simpl. by rewrite MD_New_empty.
    + unfold ResponseModifier. simpl.
      by destruct (ServerMetadataFromContext ctx).
  - unfold MetadataAnnotator. simpl.
    destruct (skipped bare (URL_Path req)); split; done.
  - unfold ResponseModifier. simpl.
    destruct (ServerMetadataFromContext ctx); split; intros H;
      try done; try (by eexists); by destruct H.
  - unfold processIncomingMetadata, FromIncomingContext. simpl.
    destruct (ctx_incoming ctx); split; intros H;
      try done; try (by eexists); by destruct H.
  - done.
  - done.
Qed.

(** ** Validation, in full *)

Lemma validate_config_loop_None (ms : list HeaderMapping) i seen :
  validate_config_loop i seen ms = None ↔
    (∀ m, m ∈ ms → ¬ has_empty_name m)
    ∧ NoDup (mapping_key <$> ms)
    ∧ (∀ m, m ∈ ms → seen !! mapping_key m = None).
Proof.
  revert i seen. induction ms as [|a ms IH]; intros i seen.
  { simpl. split; [|done]. intros _.
    split; [|split; [constructor|]]; intros m Hm; by apply elem_of_nil in Hm. }
  rewrite fmap_cons, NoDup_cons. simpl.
  destruct (HTTPHeader a =? "") eqn:Hh.
  { split; [done|]. intros (Hnames & _). exfalso.
    apply (Hnames a); [by left|]. left. by apply eqb_empty_true. }
  destruct (GRPCMetadata a =? "") eqn:Hg.
  { split; [done|]. intros (Hnames & _). exfalso.
    apply (Hnames a); [by left|]. right. by apply eqb_empty_true. }
  apply eqb_empty_false in Hh, Hg.
  destruct (seen !! mapping_key a) as [existing|] eqn:Hseen.
  { split; [done|]. intros (_ & _ & Hfresh).
    rewrite (Hfresh a) in Hseen; [done|by left]. }
  rewrite IH. split.
  - intros (Hnames & Hnodup & Hfresh). split; [|split; [split|]].
    + intros m [->|Hm]%elem_of_cons; [|by apply Hnames].
      intros [?|?]; contradiction.
    + intros (m & Hkey & Hm)%list_elem_of_fmap.
      specialize (Hfresh m Hm). by rewrite <- Hkey, lookup_insert_eq in Hfresh.
    + done.
    + intros m [->|Hm]%elem_of_cons; [done|].
      specialize (Hfresh m Hm). rewrite lookup_insert in Hfresh.
      by case_decide.
  - intros (Hnames & [Hnotin Hnodup] & Hfresh). split; [|split; [done|]].
    + intros m Hm. apply Hnames. by right.
    + intros m Hm. rewrite lookup_insert_ne; [apply Hfresh; by right|].
      intros Hkey. apply Hnotin, list_elem_of_fmap. by exists m.
Qed.

(** X19. [ValidateConfig] accepts a configuration exactly when no rule has
    an empty name and the keys ["<HTTP header>-><gRPC metadata>"] of its
    rules are pairwise different; every configuration it accepts is
    accepted by [Validate] too. *)
Theorem ValidateConfig_accepts (hm : HeaderMapper) (cfg : Config) :
  (ValidateConfig (Some cfg) = None ↔
     (∀ m, m ∈ Mappings cfg → ¬ has_empty_name m)
     ∧ NoDup (mapping_key <$> Mappings cfg))
  ∧ (config hm = Some cfg → ValidateConfig (Some cfg) = None →
     Validate hm = None).
Proof.
  assert (ValidateConfig (Some cfg) = None ↔
            (∀ m, m ∈ Mappings cfg → ¬ has_empty_name m)
            ∧ NoDup (mapping_key <$> Mappings cfg)) as Hiff.
  { simpl. rewrite validate_config_loop_None. split.
    - by intros (? & ? & _).
    - intros [? ?]. split; [done|]. split; [done|].
      intros m _. apply lookup_empty. }
  split; [done|]. intros Hcfg [Hnames _]%Hiff.
  unfold Validate. rewrite Hcfg.
  destruct (validate_loop 0 (Mappings cfg)) as [e|] eqn:Hv; [|done].
  assert (is_Some (validate_loop 0 (Mappings cfg))) as Hsome by eauto.
  apply validate_loop_Some in Hsome as (m & Hm & He).
  by destruct (Hnames m Hm).
Qed.

(** The keys of two rules with different pairs of names can coincide;
    [ValidateConfig] then reports a duplicate. *)
Example ValidateConfig_key_collision :
  ValidateConfig
    (Some (config_of [rule "a->b" "c" Incoming; rule "a" "b->c" Outgoing]))
  = Some (ErrDuplicateMapping "a->b->c" Incoming Outgoing).
Proof. reflexivity. Qed.

Lemma validate_loop_first (ms : list HeaderMapping) (i : nat) e :
  validate_loop i ms = Some e →
  ∃ (j : nat) m,
    ms !! j = Some m
    ∧ (∀ (j' : nat) m', j' < j → ms !! j' = Some m' → ¬ has_empty_name m')
    ∧ ((HTTPHeader m = "" ∧ e = ErrHTTPHeaderEmpty (i + j))
       ∨ (HTTPHeader m ≠ "" ∧ GRPCMetadata m = ""
          ∧ e = ErrGRPCMetadataEmpty (i + j))).
Proof.
  revert i. induction ms as [|a ms IH]; intros i; simpl; [done|].
  destruct (HTTPHeader a =? "") eqn:Hh.
  { intros [= <-]. exists 0, a. split; [done|]. split; [intros; lia|].
    left. split; [by apply eqb_empty_true|]. f_equal. lia. }
  destruct (GRPCMetadata a =? "") eqn:Hg.
  { intros [= <-]. exists 0, a. split; [done|]. split; [intros; lia|].
    right. split; [by apply eqb_empty_false|].
    split; [by apply eqb_empty_true|]. f_equal. lia. }
  apply eqb_empty_false in Hh, Hg.
  intros (j & m & Hj & Hbefore & Herr)%IH.
  exists (S j), m. split; [done|]. split.
  - intros [|j'] m' Hlt; simpl.
    + intros [= <-] [?|?]; contradiction.
    + apply Hbefore. lia.
  - by replace (i + S j) with (S i + j) by lia.
Qed.

(** X20. The error of [Validate] names the first offending mapping: for a
    configuration that is not nil the error carries the index of the first
    rule with an empty name, and it is the HTTP header error when that
    rule's HTTP header name is empty, the gRPC metadata error otherwise. *)
Theorem Validate_reports_first_offender
    (hm : HeaderMapper) (cfg : Config) (e : error) :
  config hm = Some cfg →
  Validate hm = Some e →
  ∃ (j : nat) m,
    Mappings cfg !! j = Some m
    ∧ (∀ (j' : nat) m', j' < j → Mappings cfg !! j' = Some m' →
                        ¬ has_empty_name m')
    ∧ ((HTTPHeader m = "" ∧ e = ErrHTTPHeaderEmpty j)
       ∨ (HTTPHeader m ≠ "" ∧ GRPCMetadata m = ""
          ∧ e = ErrGRPCMetadataEmpty j)).
Proof.
  intros Hcfg. unfold Validate. rewrite Hcfg.
  intros Hv. by apply validate_loop_first in Hv.
Qed.

(** ** The builders *)

Lemma update_last_policy f call b :
  Builder.update_last f (run_policy call b)
  = run_policy call (Builder.update_last f b).
Proof.
  destruct b as [[ms sk cs ow dbg]].
  destruct call; unfold Builder.update_last; simpl;
    by destruct (0 <? length ms)%nat.
Qed.

(** X21. The policy calls of the builder ([SkipPaths], [CaseSensitive],
    [OverwriteExisting], [Debug]) leave the mappings alone and can be made
    at any point of the chain: each commutes with [AddMapping], with
    [WithTransform], [WithRequired] and [WithDefault], and with the calls
    for the other policies; of two calls for the same policy the later one
    wins. *)
Theorem Builder_policy_calls (call call' : policy_call) (b : Builder.t) :
  Mappings (Builder.config (run_policy call b)) = Mappings (Builder.config b)
  ∧ (∀ h g d,
       run_policy call (Builder.AddMapping h g d b)
       = Builder.AddMapping h g d (run_policy call b))
  ∧ (∀ t, run_policy call (Builder.WithTransform t b)
          = Builder.WithTransform t (run_policy call b))
  ∧ (∀ r, run_policy call (Builder.WithRequired r b)
          = Builder.WithRequired r (run_policy call b))
  ∧ (∀ v, run_policy call (Builder.WithDefault v b)
          = Builder.WithDefault v (run_policy call b))
  ∧ (if same_policy call call'
     then run_policy call (run_policy call' b) = run_policy call b
     else run_policy call (run_policy call' b)
          = run_policy call' (run_policy call b)).
Proof.
  split; [by destruct call|]. split; [by destruct call|].
  unfold Builder.WithTransform, Builder.WithRequired, Builder.WithDefault.
  split; [intros; by rewrite update_last_policy|].
  split; [intros; by rewrite update_last_policy|].
  split; [intros; by rewrite update_last_policy|].
  by destruct call, call'.
Qed.

(** X22. The two builders agree: adding the pairs of a list one by one with
    [Builder.AddMapping] gives the configuration that [ConfigBuilder] gives
    when the corresponding plain rules are added with
    [ConfigBuilder.AddMapping] or set at once with [WithMappings]; its
    mappings are these rules in the order of the list. *)
Theorem builders_agree (triples : list (string * string * MappingDirection)) :
  let plain := λ '(h, g, d), rule h g d in
  let built :=
    fold_left (λ b '(h, g, d), Builder.AddMapping h g d b) triples
              Builder.NewBuilder in
  Builder.config built
  = ConfigBuilder.Build
      (fold_left (λ cb x, ConfigBuilder.AddMapping (plain x) cb) triples
                 ConfigBuilder.NewConfigBuilder)
  ∧ Builder.config built
    = ConfigBuilder.Build
        (ConfigBuilder.WithMappings (plain <$> triples)
           ConfigBuilder.NewConfigBuilder)
  ∧ Mappings (Builder.config built) = plain <$> triples.
Proof.
  intros plain built.
  assert (∀ ms b cb,
            Builder.config b = ConfigBuilder.config cb →
            Builder.config b = set_Mappings ms zero_Config →
            let b' := fold_left (λ b '(h, g, d), Builder.AddMapping h g d b)
                                triples b in
            Builder.config b'
            = ConfigBuilder.config
                (fold_left (λ cb x, ConfigBuilder.AddMapping (plain x) cb)
                           triples cb)
            ∧ Builder.config b'
              = set_Mappings (ms ++ (plain <$> triples)) zero_Config) as Hgen.
  { induction triples as [|[[h g] d] triples IH]; intros ms b cb Hsame Hms.
    - simpl. by rewrite app_nil_r.
    - simpl. rewrite cons_middle, app_assoc. apply IH.
      + simpl. by rewrite Hsame.
      + simpl. by rewrite Hms. }
  destruct (Hgen [] Builder.NewBuilder ConfigBuilder.NewConfigBuilder
              eq_refl eq_refl) as [Hone Hall].
  split; [exact Hone|]. fold built in Hall. rewrite Hall.
  split; reflexivity.
Qed.

(** ** Predefined mappings *)

(** X23. Every predefined mapping ([CommonMappings], [AuthMappings],
    [TracingMappings]) maps a token header name to its lower-case form and
    has neither transform nor default.  Each bundle alone, and
    [AuthMappings] with [TracingMappings], pass [ValidateConfig];
    [CommonMappings] followed by [AuthMappings] or by [TracingMappings]
    does not (a pair of names occurs twice), though [Validate] accepts
    it. *)
Theorem predefined_mappings :
  Forall (λ m, GRPCMetadata m = Strings.ToLower (HTTPHeader m)
               ∧ Strings.all_bytes Textproto.validHeaderFieldByte
                   (HTTPHeader m) = true
               ∧ HTTPHeader m ≠ ""
               ∧ Transform m = None ∧ DefaultValue m = "")
         (CommonMappings ++ AuthMappings ++ TracingMappings)
  ∧ ValidateConfig (Some (config_of CommonMappings)) = None
  ∧ ValidateConfig (Some (config_of AuthMappings)) = None
  ∧ ValidateConfig (Some (config_of TracingMappings)) = None
  ∧ ValidateConfig (Some (config_of (AuthMappings ++ TracingMappings))) = None
  ∧ ValidateConfig (Some (config_of (CommonMappings ++ AuthMappings)))
    = Some (ErrDuplicateMapping "Authorization->authorization"
              Incoming Incoming)
  ∧ ValidateConfig (Some (config_of (CommonMappings ++ TracingMappings)))
    = Some (ErrDuplicateMapping "X-Request-ID->x-request-id"
              Bidirectional Bidirectional)
  ∧ Validate (NewHeaderMapper
                (Some (config_of (CommonMappings ++ AuthMappings
                                  ++ TracingMappings)))) = None.
Proof.
  split; [|repeat split; vm_compute; reflexivity].
  repeat (apply Forall_cons; split; [by repeat split|]). by apply Forall_nil.
Qed.

(** ** The further properties at work *)

Lemma Remove_prefix_suffix_witness :
  (∀ r, "token" ≠ ("Bearer " ++ r)%string)
  ∧ RemovePrefix "Bearer " "token" = "token".
Proof.
  assert (∀ r, "token" ≠ ("Bearer " ++ r)%string) as Hno
    by (intros r; discriminate).
  split; [exact Hno|].
  exact (proj1 (proj2 (proj2 (Remove_prefix_suffix "Bearer " "token"))) Hno).
Defined.

Lemma Normalize_idempotent_witness :
  ascii_only "  Bearer TOKEN  "
  ∧ Normalize "  Bearer TOKEN  " = "bearer token"
  ∧ Normalize (Normalize "  Bearer TOKEN  ") = Normalize "  Bearer TOKEN  ".
Proof.
  split; [reflexivity|]. split; [reflexivity|].
  exact (proj2 (Normalize_idempotent "  Bearer TOKEN  " eq_refl)).
Defined.

Lemma DefaultIfEmpty_white_space_witness :
  ascii_only "   "
  ∧ DefaultIfEmpty "anonymous" "   "
    = if Strings.all_bytes Strings.is_space "   " then "anonymous" else "   ".
Proof.
  split; [reflexivity|].
  exact (DefaultIfEmpty_white_space "anonymous" "   " eq_refl).
Defined.

Lemma ExtractBearerToken_scheme_witness :
  ascii_only "abc123"
  ∧ Strings.TrimSpace "abc123" = "abc123"
  ∧ ExtractBearerToken (AddPrefix "Bearer " "abc123") = "abc123".
Proof.
  split; [reflexivity|]. split; [reflexivity|].
  exact (proj2 (proj1 (ExtractBearerToken_scheme "" "abc123") eq_refl)
           eq_refl).
Defined.

Lemma MaskSensitive_keeps_length_witness :
  (0 ≤ 3 < 2 ^ 62)%Z
  ∧ (len "abcdefghijk" < 2 ^ 63)%Z
  ∧ MaskSensitive 3 "abcdefghijk" = Returned "abc*****ijk".
Proof.
  assert (0 ≤ 3 < 2 ^ 62)%Z as Hk by lia.
  assert (len "abcdefghijk" < 2 ^ 63)%Z as Hlen by reflexivity.
  split; [exact Hk|]. split; [exact Hlen|].
  destruct (MaskSensitive_keeps_length 3 "abcdefghijk" Hk Hlen)
    as (masked & Hrun & _ & Hmasked).
  rewrite Hrun, Hmasked. reflexivity.
Defined.

Lemma MaskSensitive_negative_panics_witness :
  (- 2 ^ 62 ≤ -1 < 0)%Z ∧ MaskSensitive (-1) "secret" = Panicked.
Proof.
  assert (- 2 ^ 62 ≤ -1 < 0)%Z as Hk by lia.
  split; [exact Hk|].
  exact (MaskSensitive_negative_panics (-1) "secret" Hk).
Defined.

Lemma Truncate_prefix_witness :
  (0 ≤ 5)%Z ∧ Truncate 5 "HelloWorld" = Returned "Hello".
Proof.
  assert (0 ≤ 5)%Z as Hmax by lia.
  split; [exact Hmax|].
  exact (proj1 (proj1 (Truncate_prefix 5 "HelloWorld") Hmax)).
Defined.


Lemma MetadataAnnotator_entries_witness :
  MetadataAnnotator two_writers_mapper two_ids_request
  = Returned ({[ "user-id" := ["12345"] ]}, [])
  ∧ ∃ v, ["12345"] = [v].
Proof.
  assert (MetadataAnnotator two_writers_mapper two_ids_request
          = Returned ({[ "user-id" := ["12345"] ]}, [])) as Hrun
    by reflexivity.
  split; [exact Hrun|].
  exact (proj1 (MetadataAnnotator_entries two_writers_mapper two_ids_request
                  {[ "user-id" := ["12345"] ]} [] "user-id" ["12345"]
                  Hrun eq_refl)).
Defined.

Lemma MetadataAnnotator_reads_rule_headers_witness :
  Req_Header user_id_request ≠ Req_Header noisy_user_id_request
  ∧ MetadataAnnotator (user_id_mapper false) user_id_request
    = MetadataAnnotator (user_id_mapper false) noisy_user_id_request.
Proof.
  split.
  - intros Heq.
    assert (Req_Header user_id_request !! "X-Other"
            = Req_Header noisy_user_id_request !! "X-Other") as Hk
      by (by rewrite Heq).
    discriminate Hk.
  - apply (MetadataAnnotator_reads_rule_headers (user_id_mapper false)
             (config_of [rule "x-user-id" "user-id" Incoming]));
      [reflexivity..|].
    intros m Hm Hd. apply list_elem_of_singleton in Hm as ->. reflexivity.
Defined.

Lemma Bidirectional_is_pair_witness :
  Bidirectional ≠ Incoming ∧ Bidirectional ≠ Outgoing
  ∧ MetadataAnnotator
      (with_config (config_of [rule "X-Request-ID" "request-id" Bidirectional])
         (user_id_mapper false))
      user_id_request
    = MetadataAnnotator
        (with_config
           (config_of [rule "X-Request-ID" "request-id" Incoming;
                       rule "X-Request-ID" "request-id" Outgoing])
           (user_id_mapper false))
        user_id_request.
Proof.
  assert (Bidirectional ≠ Incoming) as Hin by discriminate.
  assert (Bidirectional ≠ Outgoing) as Hout by discriminate.
  split; [exact Hin|]. split; [exact Hout|].
  exact (proj1 (Bidirectional_is_pair (user_id_mapper false) zero_Config
                  user_id_request interceptor_ctx ∅ [] []
                  (rule "X-Request-ID" "request-id" Incoming) Bidirectional
                  Hin Hout)).
Defined.


Lemma ResponseModifier_frame_witness :
  config response_time_mapper = Some (config_of [response_time_rule])
  ∧ ResponseModifier response_time_mapper response_time_ctx content_type_sink
    = Returned ({[ "Content-Type" := ["text/plain"];
                   "X-Response-Time" := ["150ms"] ]}, [])
  ∧ (({[ "Content-Type" := ["text/plain"];
         "X-Response-Time" := ["150ms"] ]} : Header) !! "Content-Type"
     = content_type_sink !! "Content-Type"
     ∨ ∃ m v, m ∈ [response_time_rule] ∧ Direction m ≠ Incoming
              ∧ Textproto.CanonicalMIMEHeaderKey (HTTPHeader m)
                = "Content-Type"
              ∧ ({[ "Content-Type" := ["text/plain"];
                    "X-Response-Time" := ["150ms"] ]} : Header)
                !! "Content-Type" = Some [v]).
Proof.
  split; [reflexivity|].
  assert (ResponseModifier response_time_mapper response_time_ctx
            content_type_sink
          = Returned ({[ "Content-Type" := ["text/plain"];
                         "X-Response-Time" := ["150ms"] ]}, [])) as Hrun
    by (vm_compute; reflexivity).
  split; [exact Hrun|].
  exact (ResponseModifier_frame response_time_mapper
           (config_of [response_time_rule]) response_time_ctx
           content_type_sink _ [] "Content-Type" eq_refl Hrun).
Defined.

Lemma ResponseModifier_idempotent_witness :
  ResponseModifier response_time_mapper response_time_ctx ∅
  = Returned ({[ "X-Response-Time" := ["150ms"] ]}, [])
  ∧ ResponseModifier response_time_mapper response_time_ctx
      {[ "X-Response-Time" := ["150ms"] ]}
    = Returned ({[ "X-Response-Time" := ["150ms"] ]}, []).
Proof.
  assert (ResponseModifier response_time_mapper response_time_ctx ∅
          = Returned ({[ "X-Response-Time" := ["150ms"] ]}, [])) as Hrun
    by (vm_compute; reflexivity).
  split; [exact Hrun|].
  exact (ResponseModifier_idempotent response_time_mapper response_time_ctx
           ∅ _ [] Hrun).
Defined.


Lemma HeaderMatcher_accepts_every_header_witness :
  config (user_id_mapper false)
  = Some (set_CaseSensitive false
            (config_of [rule "x-user-id" "user-id" Incoming]))
  ∧ ∃ grpcKey,
      HeaderMatcher (λ _, ("", false)) (user_id_mapper false) "Unknown_Header"
      = Returned (grpcKey, true).
Proof.
  split; [reflexivity|].
  destruct (HeaderMatcher_accepts_every_header (λ _, ("", false))
              (user_id_mapper false)
              (set_CaseSensitive false
                 (config_of [rule "x-user-id" "user-id" Incoming]))
              "Unknown_Header" eq_refl) as (grpcKey & Hrun & _).
  exists grpcKey. exact Hrun.
Defined.

Lemma HeaderMatcher_last_rule_wins_witness :
  policy_key (set_CaseSensitive false
                (config_of [rule "x-user-id" "user-id" Incoming]))
             "X-USER-ID"
  = "x-user-id"
  ∧ HeaderMatcher (λ _, ("", false)) (user_id_mapper false) "X-USER-ID"
    = Returned ("user-id", true).
Proof.
  split; [reflexivity|].
  refine (HeaderMatcher_last_rule_wins (λ _, ("", false))
            (user_id_mapper false)
            (set_CaseSensitive false
               (config_of [rule "x-user-id" "user-id" Incoming]))
            [] [] (rule "x-user-id" "user-id" Incoming) "X-USER-ID"
            eq_refl eq_refl _ _ eq_refl).
  - discriminate.
  - intros m Hm. by apply elem_of_nil in Hm.
Defined.

Lemma nil_configuration_panics_witness :
  skipped {| config := None; skipPaths := ∅ |} (URL_Path bare_request) = false
  ∧ MetadataAnnotator {| config := None; skipPaths := ∅ |} bare_request
    = Panicked.
Proof.
  split; [reflexivity|].
  exact (proj2 (proj1 (proj2 (nil_configuration_panics (λ _, ("", false))
                                ∅ bare_request interceptor_ctx ∅ "")))
           eq_refl).
Defined.

Lemma ValidateConfig_accepts_witness :
  ValidateConfig (Some (config_of TracingMappings)) = None
  ∧ NoDup (mapping_key <$> TracingMappings)
  ∧ Validate (NewHeaderMapper (Some (config_of TracingMappings))) = None.
Proof.
  split; [reflexivity|]. split.
  - exact (proj2 (proj1 (proj1 (ValidateConfig_accepts
                                  (NewHeaderMapper
                                     (Some (config_of TracingMappings)))
                                  (config_of TracingMappings))) eq_refl)).
  - exact (proj2 (ValidateConfig_accepts
                    (NewHeaderMapper (Some (config_of TracingMappings)))
                    (config_of TracingMappings)) eq_refl eq_refl).
Defined.

Lemma Validate_reports_first_offender_witness :
  Validate (NewHeaderMapper (Some incomplete_config))
  = Some (ErrGRPCMetadataEmpty 1)
  ∧ ∃ (j : nat) m,
      Mappings incomplete_config !! j = Some m
      ∧ (∀ (j' : nat) m', j' < j →
           Mappings incomplete_config !! j' = Some m' → ¬ has_empty_name m')
      ∧ ((HTTPHeader m = "" ∧ ErrGRPCMetadataEmpty 1 = ErrHTTPHeaderEmpty j)
         ∨ (HTTPHeader m ≠ "" ∧ GRPCMetadata m = ""
            ∧ ErrGRPCMetadataEmpty 1 = ErrGRPCMetadataEmpty j)).
Proof.
  split; [reflexivity|].
  exact (Validate_reports_first_offender
           (NewHeaderMapper (Some incomplete_config)) incomplete_config
           (ErrGRPCMetadataEmpty 1) eq_refl eq_refl).
Defined.

(** ** Defaults, pass by pass *)




